(** * Code-Snippets: the record adapter, the CRUD use cases and the [array] pipeline

    A shallow embedding of

    - [src/python/database/sqlalchemy_adapter.py] (class [SQLAlchemySQLDbAdapter]),
    - [src/python/use_cases.py] (classes [CRUDSpec] and [CRUDUseCase]),
    - [src/python/utils/dynamic_array.py] (class [array]),

    followed by the properties of the specification that concern them.

    Python objects are values of the type [value]; the database session is an
    identity map from object handles to instances; every method is a
    computation in a state-and-exception monad whose state also carries what
    was written to standard output. *)

From stdpp Require Import base option list strings pretty gmap fin_maps.

Set Default Proof Using "Type".
Open Scope string_scope.
Open Scope list_scope.
Open Scope Z_scope.

(** ** Python values *)

Scheme All for list.
Scheme All for prod.

(** The part of Python's universe the three classes touch.  [VInst] is an
    instance of a user class (an ORM object, a pydantic model) with its
    attribute dictionary; [VDict] is a [dict] with string keys, which is what
    [schema( **item )] requires. *)
Inductive value : Type :=
  | VNone
  | VBool (b : bool)
  | VInt (z : Z)
  | VStr (s : string)
  | VList (l : list value)
  | VTuple (l : list value)
  | VSet (l : list value)
  | VDict (d : list (string * value))
  | VInst (cls : string) (attrs : list (string * value)).

(** Identity of the representations.  It decides [is None] and stands for
    the storage's comparison of column values; it is not Python's [==],
    which [py_eq] below models. *)
Fixpoint value_eq_dec (x y : value) {struct x} : {x = y} + {x <> y}.
Proof.
  decide equality;
    try solve [ apply bool_eq_dec | apply Z.eq_dec | apply String.string_dec ];
    apply List.list_eq_dec; try apply value_eq_dec;
    decide equality; try apply value_eq_dec; apply String.string_dec.
Defined.

#[global] Instance value_eq_decision : EqDecision value := value_eq_dec.

(** [isinstance(v, list)] and [isinstance(v, (list, tuple, set))]. *)
Definition is_list (v : value) : bool :=
  match v with VList _ => true | _ => false end.

Definition is_list_tuple_set (v : value) : bool :=
  match v with VList _ | VTuple _ | VSet _ => true | _ => false end.

Definition is_dict (v : value) : bool :=
  match v with VDict _ => true | _ => false end.

(** [list(v)] for a list, tuple or set (a set in its iteration order). *)
Definition list_of (v : value) : list value :=
  match v with VList l | VTuple l | VSet l => l | _ => [] end.

(** Python's [x == y]: [bool] is a subclass of [int], so [True == 1];
    lists and tuples compare element by element, each with its own kind;
    sets and dicts compare without regard to order.  What [==] does on an
    instance of a user class is up to the class: [obj_eq] stands for it. *)
Fixpoint py_eq (obj_eq : value → value → bool) (x y : value) {struct x} : bool :=
  match x, y with
  | VInst _ _, _ | _, VInst _ _ => obj_eq x y
  | VNone, VNone => true
  | VBool a, VBool b => bool_decide (a = b)
  | VBool a, VInt z | VInt z, VBool a => bool_decide (z = if a then 1 else 0)
  | VInt a, VInt b => bool_decide (a = b)
  | VStr a, VStr b => bool_decide (a = b)
  | VList l, VList l' | VTuple l, VTuple l' =>
      (fix elementwise (l l' : list value) : bool :=
         match l, l' with
         | [], [] => true
         | a :: l, b :: l' => py_eq obj_eq a b && elementwise l l'
         | _, _ => false
         end) l l'
  | VSet l, VSet l' =>
      forallb (λ a, existsb (λ b, py_eq obj_eq a b) l') l
      && forallb (λ b, existsb (λ a, py_eq obj_eq a b) l) l'
  | VDict d, VDict d' =>
      bool_decide (length d = length d')
      && forallb (λ kv, match List.find (λ kv', bool_decide (kv'.1 = kv.1)) d' with
                        | Some kv' => py_eq obj_eq kv.2 kv'.2
                        | None => false
                        end) d
  | _, _ => false
  end.

(** ** Exceptions *)

Inductive exn : Type :=
  | ValidationError (msg : string)
  | TypeError (msg : string)
  | ValueError (msg : string)
  | AttributeError (msg : string)
  | IndexError (msg : string)
  | UnmappedInstanceError
  | OtherError (name msg : string)
  | StopIteration
  | OverflowError (msg : string)
  | RuntimeError (msg : string)
  | SystemExit (msg : string)
  | KeyboardInterrupt.

#[global] Instance exn_eq_decision : EqDecision exn.
Proof. solve_decision. Defined.

(** [str(e)]. *)
Definition exn_message (e : exn) : string :=
  match e with
  | ValidationError m | TypeError m | ValueError m | AttributeError m
  | IndexError m | OtherError _ m | OverflowError m | RuntimeError m
  | SystemExit m => m
  | UnmappedInstanceError => "Class 'builtins.NoneType' is not mapped"
  | StopIteration | KeyboardInterrupt => ""
  end.

(** [isinstance(e, Exception)]: [SystemExit] and [KeyboardInterrupt] derive
    from [BaseException] only, and [except Exception] lets them through. *)
Definition is_exception (e : exn) : bool :=
  match e with
  | SystemExit _ | KeyboardInterrupt => false
  | _ => true
  end.

(** ** Standard output *)

(** A call of [print] is recorded as the pieces it was given: literal text
    and the values interpolated into it.  Rendering an interpolated value
    ([str]) is left to the reader of the log; the one place where the source
    renders a value itself and guards the rendering, [array.safe_repr],
    produces a [PText]. *)
Inductive piece : Type :=
  | PText (s : string)
  | PInt (z : Z)
  | PVal (v : value)
  | PVals (l : list value)
  | POpt (o : option value)
  | PExn (e : exn).

Definition line : Type := list piece.

(** ** The monad of methods *)

(** A method starts in a state [St]; it ends with a result or with a raised
    exception, and in both cases with the state it has reached and the lines
    it has printed by then. *)
Record outcome (St A : Type) : Type :=
  Outcome { result : exn + A; state : St; output : list line }.
Arguments Outcome {St A} result state output.
Arguments result {St A} o.
Arguments state {St A} o.
Arguments output {St A} o.

Definition M (St A : Type) : Type := St → outcome St A.

Definition ret {St A} (a : A) : M St A := λ s, Outcome (inr a) s [].

Definition raise {St A} (e : exn) : M St A := λ s, Outcome (inl e) s [].

(** [after out o]: the outcome [o] of a computation that ran after [out] was
    printed. *)
Definition after {St A} (out : list line) (o : outcome St A) : outcome St A :=
  Outcome (result o) (state o) (out ++ output o).

Definition bind {St A B} (m : M St A) (k : A → M St B) : M St B :=
  λ s, let o := m s in
       match result o with
       | inl e => Outcome (inl e) (state o) (output o)
       | inr a => after (output o) (k a (state o))
       end.

Definition get {St} : M St St := λ s, Outcome (inr s) s [].

Definition modify {St} (f : St → St) : M St unit := λ s, Outcome (inr tt) (f s) [].

Definition print {St} (l : line) : M St unit := λ s, Outcome (inr tt) s [l].

(** A pure computation that may raise. *)
Definition lift {St A} (r : exn + A) : M St A :=
  match r with inl e => raise e | inr a => ret a end.

Declare Scope py_scope.
Delimit Scope py_scope with py.
Notation "'let!' x ':=' m 'in' k" := (bind m (λ x, k))
  (at level 10, x pattern, m at level 100, k at level 200) : py_scope.
Notation "m ;;; k" := (bind m (λ _, k))
  (at level 100, right associativity) : py_scope.
Open Scope py_scope.

(** [for x in xs: body x]. *)
Fixpoint for_in {St A} (xs : list A) (body : A → M St unit) : M St unit :=
  match xs with
  | [] => ret tt
  | x :: xs' => body x ;;; for_in xs' body
  end.

(** ** Attribute dictionaries *)

(** [d.get(k)]: the binding of [k], if any. *)
Fixpoint assoc_get (k : string) (d : list (string * value)) : option value :=
  match d with
  | [] => None
  | (k', v) :: d' => if decide (k' = k) then Some v else assoc_get k d'
  end.

(** [d[k] = v]: overwrite the binding of [k] where it stands, or add it last. *)
Fixpoint assoc_set (k : string) (v : value) (d : list (string * value))
  : list (string * value) :=
  match d with
  | [] => [(k, v)]
  | (k', v') :: d' =>
      if decide (k' = k) then (k, v) :: d' else (k', v') :: assoc_set k v d'
  end.


(** ** The database session *)

(** An ORM object is an instance of a mapped class; the session keeps the
    persistent instances in its identity map, under the handle through which
    the Python code holds them.  A query lists the instances of a class in
    the order of the map, which stands for the order the storage returns
    rows in.  The storage's own failures (constraint violations, unknown
    column names, lost connections) are not part of the model. *)
Record instance : Type := Inst { inst_cls : string; inst_attrs : list (string * value) }.

Definition to_value (o : instance) : value := VInst (inst_cls o) (inst_attrs o).

(** [setattr(o, k, v)] for each [k, v] of [kwargs], in order. *)
Definition set_attrs (kwargs : list (string * value)) (o : instance) : instance :=
  foldl (λ o kv, Inst (inst_cls o) (assoc_set kv.1 kv.2 (inst_attrs o))) o kwargs.

Abbreviation handle := nat (only parsing).

Record Session : Type := MkSession {
  objects : gmap nat instance;   (* the persistent instances, by handle *)
  commits : nat;                 (* the number of commits so far *)
  next_id : Z                    (* the next identity the storage assigns *)
}.

Module session.

(** The condition of [query(class_table).filter_by( **kwargs )] on one row. *)
Definition matches (class_table : string) (kwargs : list (string * value))
    (o : instance) : bool :=
  bool_decide (inst_cls o = class_table)
  && forallb (λ kv, bool_decide (assoc_get kv.1 (inst_attrs o) = Some kv.2)) kwargs.

Definition rows (class_table : string) (kwargs : list (string * value))
    (s : Session) : list (nat * instance) :=
  filter (λ ho, matches class_table kwargs ho.2) (map_to_list (objects s)).

(** [query(class_table).filter_by( **kwargs ).all()] *)
Definition query_all (class_table : string) (kwargs : list (string * value))
  : M Session (list handle) :=
  let! s := get in ret ((rows class_table kwargs s).*1).

(** [query(class_table).filter_by( **kwargs ).first()] *)
Definition query_first (class_table : string) (kwargs : list (string * value))
  : M Session (option handle) :=
  let! s := get in ret (head ((rows class_table kwargs s).*1)).

(** [query(class_table).offset(o).limit(n).all()] *)
Definition query_offset_limit (class_table : string) (o n : Z)
  : M Session (list handle) :=
  let! s := get in
  ret (take (Z.to_nat n) (drop (Z.to_nat o) ((rows class_table [] s).*1))).

(** [session.add(new_row)]: the instance becomes persistent under a fresh
    handle; the storage gives it an identity unless it brings one. *)
Definition add (new_row : instance) : M Session handle :=
  let! s := get in
  let h := fresh (dom (objects s)) in
  match assoc_get "id" (inst_attrs new_row) with
  | Some _ =>
      modify (λ s, MkSession (<[h := new_row]> (objects s)) (commits s) (next_id s)) ;;;
      ret h
  | None =>
      let o := Inst (inst_cls new_row)
                    (assoc_set "id" (VInt (next_id s)) (inst_attrs new_row)) in
      modify (λ s, MkSession (<[h := o]> (objects s)) (commits s) (next_id s + 1)) ;;;
      ret h
  end.

Definition add_all (new_rows : list instance) : M Session unit :=
  for_in new_rows (λ r, add r ;;; ret tt).

(** [session.delete(row)] *)
Definition delete (row : handle) : M Session unit :=
  modify (λ s, MkSession (base.delete row (objects s)) (commits s) (next_id s)).

Definition flush : M Session unit := ret tt.

Definition commit : M Session unit :=
  modify (λ s, MkSession (objects s) (S (commits s)) (next_id s)).

(** [session.refresh(row)]: what the instance holds is what the storage
    holds, so a refresh changes nothing; [None] is not a mapped instance. *)
Definition refresh (row : option handle) : M Session unit :=
  match row with
  | None => raise UnmappedInstanceError
  | Some _ => ret tt
  end.

(** [setattr(row, key, value)] *)
Definition setattr (row : option handle) (key : string) (v : value)
  : M Session unit :=
  match row with
  | None =>
      raise (AttributeError ("'NoneType' object has no attribute '" +:+ key +:+ "'"))
  | Some h =>
      modify (λ s, MkSession
                     (alter (λ o, Inst (inst_cls o) (assoc_set key v (inst_attrs o)))
                            h (objects s))
                     (commits s) (next_id s))
  end.

(** The Python object behind a handle, as a value. *)
Definition deref (row : handle) : M Session value :=
  let! s := get in
  match objects s !! row with
  | Some o => ret (to_value o)
  | None => raise (OtherError "InvalidRequestError" "instance is not persistent")
  end.

End session.

(** ** Keyword arguments *)

(** A call [f(a1, ..., an, **kwargs)] binds the positional arguments to the
    first parameters of [f]; a keyword named like one of these, [params],
    is then a [TypeError], reported for the first such keyword, and the body
    of [f] is not entered. *)
Definition bind_keywords (f : string) (params : list string)
    (kwargs : list (string * value)) : exn + unit :=
  match list_find (λ kv, kv.1 ∈ params) kwargs with
  | Some (_, kv) =>
      inl (TypeError (f +:+ "() got multiple values for argument '" +:+ kv.1 +:+ "'"))
  | None => inr tt
  end.

(** ** [SQLAlchemySQLDbAdapter] *)

Module SQLAlchemySQLDbAdapter.

Definition add_value (new_row : instance) : M Session handle :=
  let! h := session.add new_row in
  session.commit ;;;
  session.refresh (Some h) ;;;
  ret h.

Definition read_all_values (class_table : string) : M Session (list handle) :=
  session.query_all class_table [].

Definition add_values (class_table : string) (new_row : list instance)
  : M Session (list handle) :=
  session.add_all new_row ;;;
  session.commit ;;;
  read_all_values class_table.

Definition update_values (class_table : string) (row_id : value)
    (kwargs : list (string * value)) : M Session (option handle) :=
  lift (bind_keywords "SQLAlchemySQLDbAdapter.update_values"
          ["self"; "class_table"; "row_id"] kwargs) ;;;
  let! row := session.query_first class_table [("id", row_id)] in
  for_in kwargs (λ kv,
    print [PText kv.1; PVal kv.2] ;;;
    session.setattr row kv.1 kv.2) ;;;
  session.flush ;;;
  session.refresh row ;;;
  session.commit ;;;
  ret row.

Definition update_value (class_table : string) (key : string) (v : value)
    (kwargs : list (string * value)) : M Session (option handle) :=
  lift (bind_keywords "SQLAlchemySQLDbAdapter.update_value"
          ["self"; "class_table"; "key"; "value"] kwargs) ;;;
  let! row := session.query_first class_table kwargs in
  match row with
  | None => ret None
  | Some _ =>
      session.setattr row key v ;;;
      session.commit ;;;
      session.refresh row ;;;
      ret row
  end.



Definition read_all_values_with_pagination (class_table : string)
    (number_of_objects_per_page current_page_number : Z) : M Session (list handle) :=
  let offset_number := (current_page_number - 1) * number_of_objects_per_page in
  session.query_offset_limit class_table offset_number number_of_objects_per_page.

Definition delete_all_values (class_table : string) : M Session unit :=
  let! rows_to_delete := session.query_all class_table [] in
  for_in rows_to_delete session.delete ;;;
  session.commit.

Definition delete_value (class_table : string) (kwargs : list (string * value))
  : M Session bool :=
  let! rows_to_delete := session.query_all class_table kwargs in
  for_in rows_to_delete session.delete ;;;
  session.commit ;;;
  let! remaining := session.query_all class_table kwargs in
  ret (if decide (remaining = []) then true else false).

End SQLAlchemySQLDbAdapter.

(** ** Classes as the code uses them *)

(** A pydantic model class (or any class handed to [array.validate]) is
    known to the code through three entry points: [isinstance(v, schema)],
    the constructor call [schema( **kwargs )] and
    [schema.model_validate(obj, from_attributes=True)].  The last two raise
    [ValidationError] when the data does not fit. *)
Record Schema : Type := MkSchema {
  schema_name : string;
  schema_isinstance : value → bool;
  schema_call : list (string * value) → exn + value;
  model_validate : value → exn + value
}.

(** An instance of a write model: its fields, and the names of those that
    were explicitly set. *)
Record BaseModel : Type := MkModel {
  model_fields : list (string * value);
  model_fields_set : list string
}.

(** [dto.model_dump(exclude_unset=True)] *)
Definition model_dump_exclude_unset (dto : BaseModel) : list (string * value) :=
  filter (λ kv, kv.1 ∈ model_fields_set dto) (model_fields dto).

(** ** [use_cases.py]: the envelopes *)

Record WriteEntityRequest : Type := { request_entity : BaseModel }.
Record WriteEntityResponse : Type := { written_entity : value }.
Record ReadAllEntitiesResponse : Type := { entities : list value }.

(** ** [CRUDSpec] *)

Record CRUDSpec : Type := MkSpec {
  orm_model : string;
  write_in : Schema;
  read_out : Schema;
  id_field : string
}.

(** [self.orm_model( **data )]: the mapped class's constructor sets each
    keyword as an attribute. *)
Definition to_orm_write (spec : CRUDSpec) (dto : BaseModel) : instance :=
  let data := model_dump_exclude_unset dto in
  Inst (orm_model spec) data.

Definition to_read (spec : CRUDSpec) (orm_obj : value) : exn + value :=
  model_validate (read_out spec) orm_obj.

(** [[f(x) for x in xs]] for an [f] that may raise. *)
Fixpoint comprehension {A B} (f : A → exn + B) (xs : list A) : exn + list B :=
  match xs with
  | [] => inr []
  | x :: xs' =>
      match f x with
      | inl e => inl e
      | inr y =>
          match comprehension f xs' with
          | inl e => inl e
          | inr ys => inr (y :: ys)
          end
      end
  end.

(** ** [CRUDUseCase] *)

Module CRUDUseCase.

Import SQLAlchemySQLDbAdapter.

Section use_case.
Variable spec : CRUDSpec.

Definition write_entity (request : WriteEntityRequest) (entity_id : option Z)
  : M Session WriteEntityResponse :=
  match entity_id with
  | Some entity_id =>
      let! updated :=
        update_values (orm_model spec) (VInt entity_id)
          (model_dump_exclude_unset (request_entity request)) in
      match updated with
      | None =>
          raise (ValueError ("Entity with id " +:+ pretty entity_id +:+ " not found"))
      | Some updated =>
          let! obj := session.deref updated in
          let! dto := lift (to_read spec obj) in
          let result := {| written_entity := dto |} in
          print [PText "Updated entity: "; PVal (written_entity result)] ;;;
          ret result
      end
  | None =>
      let orm_obj := to_orm_write spec (request_entity request) in
      let! created := add_value orm_obj in
      let! obj := session.deref created in
      let! dto := lift (to_read spec obj) in
      let result := {| written_entity := dto |} in
      print [PText "Created entity: "; PVal (written_entity result)] ;;;
      ret result
  end.


Definition read_all_entities : M Session ReadAllEntitiesResponse :=
  let! hs := read_all_values (orm_model spec) in
  let! s := get in
  let! dtos :=
    lift (comprehension (to_read spec)
            (omap (λ h, to_value <$> objects s !! h) hs)) in
  let result := {| entities := dtos |} in
  print [PText "Entities Retrieved:"; PInt (Z.of_nat (length (entities result)))] ;;;
  ret result.



End use_case.

End CRUDUseCase.

(** ** Python's list operations with their index conventions *)

Definition newline : string := String (Ascii.ascii_of_nat 10) EmptyString.

(** [l[i]]: a negative index counts from the end. *)
Definition py_index (len : nat) (i : Z) : option nat :=
  let j := if i <? 0 then i + Z.of_nat len else i in
  if (0 <=? j) && (j <? Z.of_nat len) then Some (Z.to_nat j) else None.

(** [list.insert] and [list.pop] take their index as a C [ssize_t], of 64
    bits here: an integer that does not fit is an [OverflowError]. *)
Definition ssize_t_max : Z := 2 ^ 63 - 1.

Definition as_ssize_t (i : Z) : exn + Z :=
  if (- ssize_t_max - 1 <=? i) && (i <=? ssize_t_max) then inr i
  else inl (OverflowError "Python int too large to convert to C ssize_t").

(** [l.insert(i, x)]: the position is clamped to the ends of the list. *)
Definition py_insert (i : Z) (x : value) (l : list value) : exn + list value :=
  match as_ssize_t i with
  | inl e => inl e
  | inr i =>
      let n := Z.of_nat (length l) in
      let j := if i <? 0 then Z.max 0 (i + n) else Z.min i n in
      inr (take (Z.to_nat j) l ++ x :: drop (Z.to_nat j) l)
  end.

(** [l.remove(x)]: without the first element [y] with [y == x], if there is
    one; [eq] is [==]. *)
Fixpoint py_remove (eq : value → value → bool) (x : value) (l : list value)
  : option (list value) :=
  match l with
  | [] => None
  | y :: l' => if eq y x then Some l' else cons y <$> py_remove eq x l'
  end.

(** [type(v)] as it prints. *)
Definition type_name (v : value) : string :=
  match v with
  | VNone => "<class 'NoneType'>"
  | VBool _ => "<class 'bool'>"
  | VInt _ => "<class 'int'>"
  | VStr _ => "<class 'str'>"
  | VList _ => "<class 'list'>"
  | VTuple _ => "<class 'tuple'>"
  | VSet _ => "<class 'set'>"
  | VDict _ => "<class 'dict'>"
  | VInst cls _ => "<class '" +:+ cls +:+ "'>"
  end.

(** The builtins the pipeline delegates to: [repr], [sum], [max],
    [list.sort], [list(set(...))] and [==] on instances of user classes.
    Each may raise.  The [repr] of the values considered raises nothing but
    instances of [Exception]; a [repr] that exits or is interrupted is
    handed to [array.wrapper_debug] directly. *)
Record builtins : Type := MkBuiltins {
  py_repr : value → exn + string;
  py_sum : list value → exn + value;
  py_max : option (value → exn + value) → list value → exn + value;
  py_sorted : option (value → exn + value) → bool → list value → exn + list value;
  py_set : list value → exn + list value;
  py_object_eq : value → value → bool;
  py_repr_exception : ∀ v e, py_repr v = inl e → is_exception e = true
}.

(** ** [dynamic_array.py]: the class [array] *)

(** Pipelines are objects: [heap] holds the [items] of every [array] created
    so far, and a pipeline is known by its position there.  [debug_active] is
    the class attribute. *)
Record Pipelines : Type := MkPipelines {
  heap : list (list value);
  debug_active : bool
}.

Module array.

(** [self.items] and [self.items = xs] *)
Definition items (self : nat) : M (list (list value)) (list value) :=
  let! h := get in ret (default [] (h !! self)).

Definition set_items (self : nat) (xs : list value) : M (list (list value)) unit :=
  modify (λ h, <[self := xs]> h).

(** The list [__init__] builds from its arguments. *)
Definition init_items (args : list value) : list value :=
  match args with
  | [] => []
  | [a] => if is_list_tuple_set a then list_of a else [a]
  | _ => args
  end.

(** [array( *args )] *)
Definition init (args : list value) : M (list (list value)) nat :=
  let! h := get in
  modify (λ h, h ++ [init_items args]) ;;;
  ret (length h).

(** [unpack] of [flatten]. *)
Fixpoint unpack (array_of_arrays : value) : list value :=
  match array_of_arrays with
  | VList l => concat (unpack <$> l)
  | _ => [array_of_arrays]
  end.

(** What the [try] block of [validate] evaluates to for one item. *)
Definition validated_item (schema : Schema) (item : value) : exn + value :=
  match item with
  | VDict d => schema_call schema d
  | _ =>
      if schema_isinstance schema item then inr item
      else inl (TypeError ("Item must be a dict or " +:+ schema_name schema
                           +:+ " instance, got " +:+ type_name item))
  end.

(** The loop of [validate]: only [pydantic.ValidationError] is caught. *)
Fixpoint validate_loop (schema : Schema) (xs validated_items : list value)
  : M (list (list value)) (list value) :=
  match xs with
  | [] => ret validated_items
  | item :: xs' =>
      match validated_item schema item with
      | inr v => validate_loop schema xs' (validated_items ++ [v])
      | inl (ValidationError e) =>
          print [PText ("Validation error" +:+ newline); PText "Item: "; PVal item;
                 PText "error: "; PExn (ValidationError e);
                 PText ("--------------" +:+ newline)] ;;;
          validate_loop schema xs' validated_items
      | inl e => raise e
      end
  end.

(** [list(map(foo, xs))]: [list] takes a [StopIteration] that [foo] raises
    for the end of the iterator, and keeps what it has got by then; any
    other exception goes through. *)
Fixpoint map_items (foo : value → exn + value) (xs : list value)
  : exn + list value :=
  match xs with
  | [] => inr []
  | x :: xs' =>
      match foo x with
      | inl StopIteration => inr []
      | inl e => inl e
      | inr y =>
          match map_items foo xs' with
          | inl e => inl e
          | inr ys => inr (y :: ys)
          end
      end
  end.

(** [list(filter(foo, xs))], with the same end on [StopIteration]. *)
Fixpoint filter_items (foo : value → exn + bool) (xs : list value)
  : exn + list value :=
  match xs with
  | [] => inr []
  | x :: xs' =>
      match foo x with
      | inl StopIteration => inr []
      | inl e => inl e
      | inr b =>
          match filter_items foo xs' with
          | inl e => inl e
          | inr ys => inr (if b then x :: ys else ys)
          end
      end
  end.

(** [list(executor.map(foo, xs))]: the results in the order of the items, or
    the exception of the first item whose call raised; the results come out
    of a generator, which turns a [StopIteration] into a [RuntimeError]. *)
Definition parallel_items (foo : value → exn + value) (xs : list value)
  : exn + list value :=
  match comprehension foo xs with
  | inl StopIteration => inl (RuntimeError "generator raised StopIteration")
  | r => r
  end.

(** [self.items.pop(index)]: the element and the rest, or the error. *)
Definition pop_item (index : Z) (xs : list value) : exn + value * list value :=
  match as_ssize_t index with
  | inl e => inl e
  | inr index =>
      match xs with
      | [] => inl (IndexError "pop from empty list")
      | _ =>
          match py_index (length xs) index with
          | None => inl (IndexError "pop index out of range")
          | Some i =>
              match xs !! i with
              | Some x => inr (x, take i xs ++ drop (S i) xs)
              | None => inl (IndexError "pop index out of range")
              end
          end
      end
  end.

(** The functions the decorator [debug] is applied to. *)
Module func.
Section bodies.
Variable B : builtins.

Definition map (foo : value → exn + value) (self : nat)
  : M (list (list value)) nat :=
  let! xs := items self in
  let! ys := lift (map_items foo xs) in
  set_items self ys ;;;
  ret self.

Definition filter (foo : value → exn + bool) (self : nat)
  : M (list (list value)) nat :=
  let! xs := items self in
  let! ys := lift (filter_items foo xs) in
  set_items self ys ;;;
  ret self.

Definition sum (self : nat) : M (list (list value)) nat :=
  let! xs := items self in
  let! total := lift (py_sum B xs) in
  set_items self [total] ;;;
  ret self.

Definition max (key : option (value → exn + value)) (self : nat)
  : M (list (list value)) nat :=
  let! xs := items self in
  let! m := lift (py_max B key xs) in
  set_items self [m] ;;;
  ret self.

Definition append (item : value) (self : nat) : M (list (list value)) nat :=
  let! xs := items self in
  set_items self (xs ++ [item]) ;;;
  ret self.

Definition insert (index : Z) (item : value) (self : nat)
  : M (list (list value)) nat :=
  let! xs := items self in
  let! ys := lift (py_insert index item xs) in
  set_items self ys ;;;
  ret self.

Definition extend (iterable : list value) (self : nat)
  : M (list (list value)) nat :=
  let! xs := items self in
  set_items self (xs ++ iterable) ;;;
  ret self.

Definition validate (schema : Schema) (self : nat) : M (list (list value)) nat :=
  let! xs := items self in
  let! validated_items := validate_loop schema xs [] in
  init validated_items.

Definition remove (item : value) (self : nat) : M (list (list value)) nat :=
  let! xs := items self in
  match py_remove (py_eq (py_object_eq B)) item xs with
  | None => raise (ValueError "list.remove(x): x not in list")
  | Some ys => set_items self ys ;;; ret self
  end.

Definition pop (index : Z) (self : nat) : M (list (list value)) nat :=
  let! xs := items self in
  match pop_item index xs with
  | inl e => raise e
  | inr (x, _) => set_items self [x] ;;; ret self
  end.

Definition apply_in_parallel (foo : value → exn + value) (self : nat)
  : M (list (list value)) nat :=
  let! xs := items self in
  let! ys := lift (parallel_items foo xs) in
  set_items self ys ;;;
  ret self.

Definition sort (key : option (value → exn + value)) (reverse : bool)
    (self : nat) : M (list (list value)) nat :=
  let! xs := items self in
  let! ys := lift (py_sorted B key reverse xs) in
  set_items self ys ;;;
  ret self.

Definition reverse (self : nat) : M (list (list value)) nat :=
  let! xs := items self in
  set_items self (rev xs) ;;;
  ret self.

Definition for_each (foo : value → exn + value) (self : nat)
  : M (list (list value)) nat :=
  let! xs := items self in
  let! ys := lift (comprehension foo xs) in
  set_items self ys ;;;
  ret self.

Definition flatten (self : nat) : M (list (list value)) nat :=
  let! xs := items self in
  set_items self (unpack (VList xs)) ;;;
  ret self.

Definition remove_duplicates (self : nat) : M (list (list value)) nat :=
  let! xs := items self in
  let! ys := lift (py_set B xs) in
  set_items self ys ;;;
  ret self.

Definition build (index_of_item : option Z) (self : nat)
  : M (list (list value)) value :=
  let! xs := items self in
  match index_of_item with
  | None => ret (VList xs)
  | Some i =>
      match py_index (length xs) i ≫= (λ n, xs !! n) with
      | Some x => ret x
      | None => raise (IndexError "list index out of range")
      end
  end.

End bodies.
End func.

(** [safe_repr]: an [Exception] raised by [repr] is caught and rendered;
    what is not an [Exception] goes through. *)
Definition safe_repr (repr : value → exn + string) (item : value) : exn + string :=
  match repr item with
  | inr s => inr s
  | inl e =>
      if is_exception e
      then inr ("<Unrepresentable Object: " +:+ exn_message e +:+ ">")
      else inl e
  end.

(** [", ".join(self.safe_repr(item) for item in self.items)] *)
Definition safe_items_str (repr : value → exn + string) (xs : list value)
  : exn + string :=
  match comprehension (safe_repr repr) xs with
  | inl e => inl e
  | inr strs => inr (String.concat ", " strs)
  end.

Definition activate_debug_mode : M Pipelines unit :=
  modify (λ p, MkPipelines (heap p) true).

(** A method body works on the pipelines; it does not see the class
    attribute. *)
Definition on_heap {A} (m : M (list (list value)) A) : M Pipelines A :=
  λ p, let o := m (heap p) in
       Outcome (result o) (MkPipelines (state o) (debug_active p)) (output o).

(** [wrapper_debug] around [func], with [repr] for the builtin. *)
Definition wrapper_debug {A} (repr : value → exn + string) (name : string)
    (func : nat → M (list (list value)) A) (self : nat) : M Pipelines A :=
  let! p := get in
  (if debug_active p then
     let! xs := on_heap (items self) in
     let! safe_items_str := lift (safe_items_str repr xs) in
     print [PText ("[BEFORE] ðŸ”»: " +:+ name +:+ ": [" +:+ safe_items_str +:+ "]");
            PText newline]
   else ret tt) ;;;
  let! result := on_heap (func self) in
  let! p := get in
  (if debug_active p then
     let! xs := on_heap (items self) in
     let! safe_items_str := lift (safe_items_str repr xs) in
     print [PText ("[AFTER] âœ…: " +:+ name +:+ ": [" +:+ safe_items_str +:+ "]");
            PText newline]
   else ret tt) ;;;
  ret result.

Section methods.
Variable B : builtins.

(** The decorator [debug]. *)
Definition debug {A} (name : string) (func : nat → M (list (list value)) A)
    (self : nat) : M Pipelines A :=
  wrapper_debug (py_repr B) name func self.

(** [array( *args )] *)
Definition new (args : list value) : M Pipelines nat := on_heap (init args).

Definition map foo := debug "map" (func.map foo).
Definition filter foo := debug "filter" (func.filter foo).
Definition sum := debug "sum" (func.sum B).
Definition max key := debug "max" (func.max B key).
Definition append item := debug "append" (func.append item).
Definition insert index item := debug "insert" (func.insert index item).
Definition extend iterable := debug "extend" (func.extend iterable).
Definition validate schema := debug "validate" (func.validate schema).
Definition remove item := debug "remove" (func.remove B item).
Definition pop index := debug "pop" (func.pop index).
Definition apply_in_parallel foo :=
  debug "apply_in_parallel" (func.apply_in_parallel foo).
Definition sort key reverse := debug "sort" (func.sort B key reverse).
Definition reverse := debug "reverse" func.reverse.
Definition for_each foo := debug "for_each" (func.for_each foo).
Definition flatten := debug "flatten" func.flatten.
Definition remove_duplicates := debug "remove_duplicates" (func.remove_duplicates B).

(** [build] is not decorated. *)
Definition build (index_of_item : option Z) (self : nat) : M Pipelines value :=
  on_heap (func.build index_of_item self).

End methods.

End array.

(** ** Concrete classes and inputs *)

Module example.

(** A pydantic model with the given required fields: building it from
    keywords or from the attributes of an object takes each field by name
    and fails with a validation error when one is missing. *)
Definition project (name : string) (fields : list string)
    (d : list (string * value)) : exn + value :=
  match mapM (λ f, pair f <$> assoc_get f d) fields with
  | Some l => inr (VInst name l)
  | None => inl (ValidationError "Field required")
  end.

Definition pydantic_model (name : string) (fields : list string) : Schema :=
  {| schema_name := name;
     schema_isinstance v :=
       match v with VInst c _ => bool_decide (c = name) | _ => false end;
     schema_call := project name fields;
     model_validate obj :=
       match obj with
       | VInst _ attrs => project name fields attrs
       | VDict d => project name fields d
       | _ => inl (ValidationError "Input should be a valid dictionary or object")
       end |}.

Definition UserWrite : Schema := pydantic_model "UserWrite" ["name"].
Definition UserRead : Schema := pydantic_model "UserRead" ["id"; "name"].

Definition user_crud_spec : CRUDSpec :=
  {| orm_model := "User"; write_in := UserWrite; read_out := UserRead;
     id_field := "id" |}.

Definition SchemaRequiringA : Schema := pydantic_model "SchemaRequiringA" ["a"].

Definition empty_session : Session :=
  {| objects := ∅; commits := 0; next_id := 1 |}.

(** One user, Alice, with an unset one-to-one relationship [profile]. *)
Definition alice : instance :=
  Inst "User" [("id", VInt 1); ("name", VStr "Alice");
               ("email", VStr "alice@example.org"); ("profile", VNone)].

Definition alice_session : Session :=
  {| objects := {[ 0%nat := alice ]}; commits := 1; next_id := 2 |}.

(** A write DTO on which only [name] was set. *)
Definition rename_to_bob : WriteEntityRequest :=
  {| request_entity :=
       {| model_fields := [("name", VStr "Bob"); ("email", VNone)];
          model_fields_set := ["name"] |} |}.

(** Builtins for integers and strings; [repr] of anything else fails. *)
Definition simple_repr (v : value) : exn + string :=
  match v with
  | VInt z => inr (pretty z)
  | VStr s => inr ("'" +:+ s +:+ "'")
  | _ => inl (OtherError "RuntimeError" "no repr")
  end.

Definition simple_repr_exception (v : value) (e : exn) :
  simple_repr v = inl e → is_exception e = true.
Proof. destruct v; intros [= <-]; reflexivity. Defined.

Definition simple_builtins : builtins :=
  {| py_repr := simple_repr;
     py_sum xs :=
       foldr (λ v acc,
                match v, acc with
                | VInt z, inr (VInt t) => inr (VInt (z + t))
                | _, inl e => inl e
                | _, _ => inl (TypeError "unsupported operand type(s) for +")
                end) (inr (VInt 0)) xs;
     py_max _ xs :=
       match xs with
       | [] => inl (ValueError "max() arg is an empty sequence")
       | x :: _ => inr x
       end;
     py_sorted _ _ xs := inr xs;
     py_set xs := inr (remove_dups xs);
     py_object_eq x y := bool_decide (x = y);
     py_repr_exception := simple_repr_exception |}.

Definition no_pipelines : Pipelines := {| heap := []; debug_active := false |}.
Definition no_pipelines_debug : Pipelines := {| heap := []; debug_active := true |}.

(** [array( *args ).reverse().reverse().build()] *)
Definition reverse_reverse_build (B : builtins) (args : list value)
  : M Pipelines value :=
  let! a := array.new args in
  let! a := array.reverse B a in
  let! a := array.reverse B a in
  array.build None a.

(** [array( *args ).flatten().build()] *)
Definition flatten_build (B : builtins) (args : list value) : M Pipelines value :=
  let! a := array.new args in
  let! a := array.flatten B a in
  array.build None a.


End example.

(** ** Notions used to state the properties *)

(** What [update_values] ends with when the query finds no row: the
    [TypeError] of the call when a keyword is named like a parameter, else
    the first [setattr] on [None], or [session.refresh(None)] when there is
    no field to set. *)
Definition update_values_error (kwargs : list (string * value)) : exn :=
  match bind_keywords "SQLAlchemySQLDbAdapter.update_values"
          ["self"; "class_table"; "row_id"] kwargs with
  | inl e => e
  | inr _ =>
      match kwargs with
      | [] => UnmappedInstanceError
      | kv :: _ =>
          AttributeError ("'NoneType' object has no attribute '" +:+ kv.1 +:+ "'")
      end
  end.

(** No keyword of the call is named like one of the parameters. *)
Definition no_clash (params : list string) (kwargs : list (string * value)) : Prop :=
  Forall (λ kv, kv.1 ∉ params) kwargs.




(** The items as [wrapper_debug] renders them when [repr] raises nothing
    but instances of [Exception]. *)
Definition safe_items_text (repr : value → exn + string) (xs : list value) : string :=
  String.concat ", "
    ((λ item, match repr item with
              | inr s => s
              | inl e => "<Unrepresentable Object: " +:+ exn_message e +:+ ">"
              end) <$> xs).

(** The lines [wrapper_debug] prints before and after the call. *)
Definition before_line (repr : value → exn + string) (name : string)
    (xs : list value) : line :=
  [PText ("[BEFORE] ðŸ”»: " +:+ name +:+ ": [" +:+ safe_items_text repr xs +:+ "]");
   PText newline].

Definition after_line (repr : value → exn + string) (name : string)
    (xs : list value) : line :=
  [PText ("[AFTER] âœ…: " +:+ name +:+ ": [" +:+ safe_items_text repr xs +:+ "]");
   PText newline].

(** What [wrapper_debug] prints around a call whose outcome is [o]. *)
Definition debug_output {A} (repr : value → exn + string) (name : string)
    (self : nat) (h : list (list value)) (b : bool)
    (o : outcome (list (list value)) A) : list line :=
  (if b then [before_line repr name (default [] (h !! self))] else [])
  ++ output o
  ++ match result o with
     | inr _ => if b then [after_line repr name (default [] (state o !! self))] else []
     | inl _ => []
     end.


(** The instance the session holds for a row handed to [session.add]: the
    row itself, with the identity of the storage when it brought none. *)
Definition persisted (s : Session) (new_row : instance) : instance :=
  match assoc_get "id" (inst_attrs new_row) with
  | Some _ => new_row
  | None =>
      Inst (inst_cls new_row)
           (assoc_set "id" (VInt (next_id s)) (inst_attrs new_row))
  end.

(** A write DTO whose one field, explicitly set, is named like a parameter
    of [update_values]. *)
Definition request_with_row_id : WriteEntityRequest :=
  {| request_entity :=
       {| model_fields := [("row_id", VInt 5)]; model_fields_set := ["row_id"] |} |}.

(** A pipeline of three numbers, traced. *)
Definition three_numbers : Pipelines :=
  {| heap := [[VInt 3; VInt 1; VInt 2]]; debug_active := true |}.

(** * Properties *)

(** ** The monad *)

Lemma bind_ok {St A B} (m : M St A) (k : A → M St B) s a s' out :
  m s = Outcome (inr a) s' out → bind m k s = after out (k a s').
Proof. intros H. unfold bind. by rewrite H. Qed.

Lemma bind_err {St A B} (m : M St A) (k : A → M St B) s e s' out :
  m s = Outcome (inl e) s' out → bind m k s = Outcome (inl e) s' out.
Proof. intros H. unfold bind. by rewrite H. Qed.

Lemma after_nil {St A} (o : outcome St A) : after [] o = o.
Proof. by destruct o. Qed.

Lemma after_after {St A} out1 out2 (o : outcome St A) :
  after out1 (after out2 o) = after (out1 ++ out2) o.
Proof. unfold after; simpl. by rewrite app_assoc. Qed.

Lemma bind_ret_l {St A B} (a : A) (k : A → M St B) (s : St) :
  bind (ret a) k s = k a s.
Proof. rewrite (bind_ok _ _ _ a s []) by done. apply after_nil. Qed.

Lemma bind_raise {St A B} (e : exn) (k : A → M St B) (s : St) :
  bind (raise e) k s = Outcome (inl e) s [].
Proof. reflexivity. Qed.

Lemma outcome_eta {St A} (o : outcome St A) :
  o = Outcome (result o) (state o) (output o).
Proof. by destruct o. Qed.

(** ** Comprehensions *)

Lemma comprehension_all {A B} (f : A → exn + B) (g : A → B) xs :
  Forall (λ x, f x = inr (g x)) xs → comprehension f xs = inr (g <$> xs).
Proof.
  induction 1 as [|x xs Hx _ IH]; simpl; [done|]. by rewrite Hx, IH.
Qed.

Lemma comprehension_raises {A B} (f : A → exn + B) xs x e :
  x ∈ xs → f x = inl e → ∃ e', comprehension f xs = inl e'.
Proof.
  intros Hin Hx. induction xs as [|y xs IH]; [by apply elem_of_nil in Hin|].
  simpl. apply elem_of_cons in Hin as [<-|Hin].
  - rewrite Hx. by eexists.
  - destruct (f y) as [e0|b]; [by eexists|].
    destruct (IH Hin) as [e' ->]. by eexists.
Qed.

Lemma comprehension_length {A B} (f : A → exn + B) xs ys :
  comprehension f xs = inr ys → length ys = length xs.
Proof.
  revert ys. induction xs as [|x xs IH]; intros ys; simpl.
  - by intros [= <-].
  - destruct (f x); [done|]. destruct (comprehension f xs); [done|].
    intros [= <-]. simpl. f_equal. by apply IH.
Qed.

(** ** Attribute dictionaries *)

Lemma assoc_get_set_eq k v d : assoc_get k (assoc_set k v d) = Some v.
Proof.
  induction d as [|[k' v'] d IH]; simpl.
  - by rewrite decide_True.
  - destruct (decide (k' = k)) as [->|Hne]; simpl.
    + by rewrite decide_True.
    + by rewrite decide_False.
Qed.

Lemma assoc_get_set_ne k k' v d :
  k ≠ k' → assoc_get k' (assoc_set k v d) = assoc_get k' d.
Proof.
  intros Hne. induction d as [|[k0 v0] d IH]; simpl.
  - by rewrite decide_False.
  - destruct (decide (k0 = k)) as [->|Hne0]; simpl.
    + by rewrite !decide_False.
    + destruct (decide (k0 = k')); [done | apply IH].
Qed.

Lemma set_attrs_cls kwargs o : inst_cls (set_attrs kwargs o) = inst_cls o.
Proof.
  revert o. induction kwargs as [|kv kwargs IH]; intros o; simpl; [done|].
  by rewrite IH.
Qed.

Lemma set_attrs_other kwargs o k :
  k ∉ kwargs.*1 →
  assoc_get k (inst_attrs (set_attrs kwargs o)) = assoc_get k (inst_attrs o).
Proof.
  revert o. induction kwargs as [|[k' v'] kwargs IH]; intros o Hk; simpl; [done|].
  rewrite fmap_cons in Hk. apply not_elem_of_cons in Hk as [Hne Hk].
  rewrite IH by done. simpl. by apply assoc_get_set_ne.
Qed.

Lemma set_attrs_set kwargs o k v :
  NoDup kwargs.*1 → (k, v) ∈ kwargs →
  assoc_get k (inst_attrs (set_attrs kwargs o)) = Some v.
Proof.
  revert o. induction kwargs as [|[k' v'] kwargs IH]; intros o Hnd Hin; simpl.
  - by apply elem_of_nil in Hin.
  - rewrite fmap_cons in Hnd. apply NoDup_cons in Hnd as [Hnotin Hnd].
    apply elem_of_cons in Hin as [Heq|Hin].
    + injection Heq as -> ->. rewrite set_attrs_other by done. simpl.
      apply assoc_get_set_eq.
    + by apply IH.
Qed.

(** ** The session *)

Lemma session_eta (s : Session) :
  MkSession (objects s) (commits s) (next_id s) = s.
Proof. by destruct s. Qed.

Lemma rows_elem_of cls kw s h o :
  (h, o) ∈ session.rows cls kw s ↔
  objects s !! h = Some o ∧ session.matches cls kw o = true.
Proof.
  unfold session.rows. rewrite list_elem_of_filter, elem_of_map_to_list. simpl.
  rewrite Is_true_true. tauto.
Qed.

Lemma rows_nil cls kw s :
  session.rows cls kw s = [] ↔
  ∀ h o, objects s !! h = Some o → session.matches cls kw o = false.
Proof.
  split.
  - intros Hnil h o Hlook. destruct (session.matches cls kw o) eqn:Hm; [|done].
    assert ((h, o) ∈ session.rows cls kw s) as Hin by by apply rows_elem_of.
    rewrite Hnil in Hin. by apply elem_of_nil in Hin.
  - intros Hnone. destruct (session.rows cls kw s) as [|[h o] l] eqn:Hrows; [done|].
    assert ((h, o) ∈ session.rows cls kw s) as Hin by (rewrite Hrows; left).
    apply rows_elem_of in Hin as [Hlook Hm]. by rewrite (Hnone h o Hlook) in Hm.
Qed.

Lemma rows_head cls kw s h o :
  head (session.rows cls kw s) = Some (h, o) →
  objects s !! h = Some o ∧ session.matches cls kw o = true.
Proof.
  intros Hhead. apply rows_elem_of. by apply head_Some_elem_of.
Qed.

(** "No record of the class has this value in this field", on the rows. *)
Lemma matches_field cls k v o :
  session.matches cls [(k, v)] o = true ↔
  inst_cls o = cls ∧ assoc_get k (inst_attrs o) = Some v.
Proof.
  unfold session.matches. simpl. rewrite andb_true_r, andb_true_iff.
  by rewrite !bool_decide_eq_true.
Qed.

Lemma rows_nil_field cls k v s :
  (∀ h o, objects s !! h = Some o → inst_cls o = cls →
          assoc_get k (inst_attrs o) ≠ Some v) →
  session.rows cls [(k, v)] s = [].
Proof.
  intros Hnone. apply rows_nil. intros h o Hlook.
  destruct (session.matches cls [(k, v)] o) eqn:Hm; [|done].
  apply matches_field in Hm as [Hcls Hget]. by destruct (Hnone h o Hlook Hcls).
Qed.

Lemma query_first_eq cls kw s :
  session.query_first cls kw s =
    Outcome (inr (head (session.rows cls kw s).*1)) s [].
Proof. reflexivity. Qed.

Lemma query_all_eq cls kw s :
  session.query_all cls kw s = Outcome (inr (session.rows cls kw s).*1) s [].
Proof. reflexivity. Qed.

(** The loop of [update_values] on a row that was found. *)
Lemma setattr_loop_found h kwargs s :
  for_in kwargs (λ kv, print [PText kv.1; PVal kv.2] ;;;
                       session.setattr (Some h) kv.1 kv.2) s =
    Outcome (inr tt)
      (MkSession (alter (set_attrs kwargs) h (objects s)) (commits s) (next_id s))
      ((λ kv, [PText kv.1; PVal kv.2]) <$> kwargs).
Proof.
  revert s. induction kwargs as [|kv kwargs IH]; intros s.
  - simpl. unfold ret. f_equal. rewrite alter_id by done. by rewrite session_eta.
  - cbn [for_in]. erewrite bind_ok; [|reflexivity]. rewrite IH.
    unfold after. cbn. f_equal. f_equal.
    rewrite alter_alter_eq. by apply alter_ext.
Qed.

(** The same loop when the query found nothing: the first [setattr] raises. *)
Lemma setattr_loop_missing kv kwargs s :
  for_in (kv :: kwargs) (λ kv, print [PText kv.1; PVal kv.2] ;;;
                               session.setattr None kv.1 kv.2) s =
    Outcome
      (inl (AttributeError ("'NoneType' object has no attribute '" +:+ kv.1 +:+ "'")))
      s [[PText kv.1; PVal kv.2]].
Proof. reflexivity. Qed.

Lemma bind_keywords_no_clash f params kwargs :
  no_clash params kwargs → bind_keywords f params kwargs = inr tt.
Proof.
  intros Hno. unfold bind_keywords.
  by rewrite (proj2 (list_find_None (λ kv : string * value, kv.1 ∈ params) kwargs) Hno).
Qed.

Lemma update_values_no_row cls row_id kwargs s :
  session.rows cls [("id", row_id)] s = [] →
  ∃ out,
    SQLAlchemySQLDbAdapter.update_values cls row_id kwargs s =
      Outcome (inl (update_values_error kwargs)) s out.
Proof.
  intros Hrows. unfold SQLAlchemySQLDbAdapter.update_values, update_values_error.
  destruct (bind_keywords _ _ kwargs) as [e|[]]; unfold lift.
  - rewrite bind_raise. by eexists.
  - rewrite bind_ret_l.
    erewrite bind_ok; [|apply query_first_eq]. rewrite Hrows, after_nil.
    destruct kwargs as [|kv kwargs]; by eexists.
Qed.

Lemma update_values_row cls row_id kwargs s h o :
  no_clash ["self"; "class_table"; "row_id"] kwargs →
  head (session.rows cls [("id", row_id)] s) = Some (h, o) →
  SQLAlchemySQLDbAdapter.update_values cls row_id kwargs s =
    Outcome (inr (Some h))
      (MkSession (alter (set_attrs kwargs) h (objects s)) (S (commits s)) (next_id s))
      ((λ kv, [PText kv.1; PVal kv.2]) <$> kwargs).
Proof.
  intros Hno Hhead. unfold SQLAlchemySQLDbAdapter.update_values.
  rewrite (bind_keywords_no_clash _ _ _ Hno). unfold lift. rewrite bind_ret_l.
  erewrite bind_ok; [|apply query_first_eq]. rewrite after_nil.
  assert (head (session.rows cls [("id", row_id)] s).*1 = Some h) as ->.
  { destruct (session.rows cls [("id", row_id)] s) as [|[h' o'] l]; [done|].
    simpl in *. congruence. }
  erewrite bind_ok; [|apply setattr_loop_found].
  unfold after. cbn. by rewrite app_nil_r.
Qed.

Lemma head_fst {A B} (l : list (A * B)) x :
  head l = Some x → head l.*1 = Some x.1.
Proof. destruct l; simpl; congruence. Qed.


(** The handles deleted by the loop of [delete_value] are gone, the others
    are untouched. *)
Lemma delete_loop hs s :
  for_in hs session.delete s =
    Outcome (inr tt)
      (MkSession (foldl (λ m h, delete h m) (objects s) hs) (commits s) (next_id s))
      [].
Proof.
  revert s. induction hs as [|h hs IH]; intros s.
  - simpl. unfold ret. by rewrite session_eta.
  - cbn [for_in]. erewrite bind_ok; [|reflexivity]. rewrite after_nil, IH.
    reflexivity.
Qed.

Lemma lookup_foldl_delete (m : gmap nat instance) hs i :
  foldl (λ m h, delete h m) m hs !! i = if decide (i ∈ hs) then None else m !! i.
Proof.
  revert m. induction hs as [|h hs IH]; intros m.
  - cbn [foldl]. case_decide as Hin; [by apply elem_of_nil in Hin | done].
  - cbn [foldl]. rewrite IH. destruct (decide (i ∈ hs)) as [Hin|Hnin].
    + rewrite decide_True; [done | by right].
    + destruct (decide (i = h)) as [->|Hne].
      * rewrite lookup_delete_eq, decide_True; [done | by left].
      * rewrite lookup_delete_ne by done.
        rewrite decide_False; [done|]. by intros [?|?]%elem_of_cons.
Qed.

Lemma delete_matching cls kw s :
  foldl (λ m h, delete h m) (objects s) (session.rows cls kw s).*1 =
    filter (λ ho, session.matches cls kw ho.2 = false) (objects s).
Proof.
  apply map_eq. intros i. rewrite lookup_foldl_delete.
  destruct (decide (i ∈ (session.rows cls kw s).*1)) as [Hin|Hnin].
  - symmetry. apply map_lookup_filter_None. right. intros o Hlook. simpl.
    apply list_elem_of_fmap in Hin as [[h o'] [-> Hin]].
    apply rows_elem_of in Hin as [Hlook' Hm]. simpl in *. congruence.
  - destruct (objects s !! i) as [o|] eqn:Hlook.
    + symmetry. apply map_lookup_filter_Some. split; [done|]. simpl.
      destruct (session.matches cls kw o) eqn:Hm; [|done].
      destruct Hnin. apply list_elem_of_fmap. exists (i, o).
      split; [done|]. by apply rows_elem_of.
    + symmetry. apply map_lookup_filter_None. by left.
Qed.

Lemma delete_value_eq cls kw s :
  let s' := MkSession (filter (λ ho, session.matches cls kw ho.2 = false) (objects s))
                      (S (commits s)) (next_id s) in
  SQLAlchemySQLDbAdapter.delete_value cls kw s =
    Outcome (inr (bool_decide ((session.rows cls kw s').*1 = []))) s' [].
Proof.
  intros s'. unfold SQLAlchemySQLDbAdapter.delete_value.
  erewrite bind_ok; [|apply query_all_eq]. rewrite after_nil.
  erewrite bind_ok; [|apply delete_loop]. rewrite after_nil.
  erewrite bind_ok; [|reflexivity]. rewrite after_nil. cbn [objects commits next_id].
  rewrite delete_matching. fold s'.
  erewrite bind_ok; [|apply query_all_eq]. rewrite after_nil.
  reflexivity.
Qed.

Lemma rows_after_delete cls kw s c n :
  session.rows cls kw
    (MkSession (filter (λ ho, session.matches cls kw ho.2 = false) (objects s)) c n)
  = [].
Proof.
  apply rows_nil. intros h o Hlook. simpl in Hlook.
  by apply map_lookup_filter_Some in Hlook as [_ Hm].
Qed.

Lemma deref_eq h o s :
  objects s !! h = Some o → session.deref h s = Outcome (inr (to_value o)) s [].
Proof.
  intros Hlook. unfold session.deref.
  erewrite bind_ok; [|reflexivity]. rewrite after_nil. by rewrite Hlook.
Qed.

(** Building the response does not touch the session. *)
Lemma respond_state {A} spec (obj : value) (k : value → M Session A) s :
  (∀ dto s, state (k dto s) = s) →
  state ((let! dto := lift (to_read spec obj) in k dto) s) = s.
Proof.
  intros Hk. destruct (to_read spec obj) as [e|dto]; unfold lift.
  - by rewrite bind_raise.
  - by rewrite bind_ret_l.
Qed.

Lemma model_dump_NoDup dto :
  NoDup (model_fields dto).*1 → NoDup (model_dump_exclude_unset dto).*1.
Proof.
  unfold model_dump_exclude_unset. generalize (model_fields dto) as l.
  induction l as [|[k v] l IH]; intros Hnd; [constructor|].
  rewrite fmap_cons in Hnd. apply NoDup_cons in Hnd as [Hk Hnd].
  rewrite filter_cons. destruct (decide _); [|by apply IH].
  rewrite fmap_cons. apply NoDup_cons. split; [|by apply IH].
  intros Hin. apply Hk. apply list_elem_of_fmap in Hin as [[k' v'] [-> Hin]].
  apply list_elem_of_filter in Hin as [_ Hin].
  apply list_elem_of_fmap. by exists (k', v').
Qed.

Lemma write_entity_update_state spec request id s h r :
  no_clash ["self"; "class_table"; "row_id"]
           (model_dump_exclude_unset (request_entity request)) →
  head (session.rows (orm_model spec) [("id", VInt id)] s) = Some (h, r) →
  state (CRUDUseCase.write_entity spec request (Some id) s) =
    MkSession
      (alter (set_attrs (model_dump_exclude_unset (request_entity request))) h
             (objects s))
      (S (commits s)) (next_id s).
Proof.
  intros Hno Hhead. unfold CRUDUseCase.write_entity.
  erewrite bind_ok; [|by eapply update_values_row]. unfold after at 1.
  cbn [state].
  apply rows_head in Hhead as [Hlook _].
  erewrite bind_ok; [|apply deref_eq; cbn [objects];
                      by rewrite lookup_alter_eq, Hlook].
  rewrite after_nil. by apply respond_state.
Qed.

(** ** The claims on the record adapter and the use cases *)

(** C2 (the code departs from the claim).  The specification has
    [update_values] return the not-found signal, without raising, when no
    record has the id.  The method has no guard for that case: with no row,
    the first [setattr(row, key, value)] raises [AttributeError], and with no
    field to set [session.refresh(row)] raises [UnmappedInstanceError].  In
    either case nothing is returned and the session is left as it was. *)
Theorem update_values_missing_row_raises cls row_id kwargs s :
  (∀ h o, objects s !! h = Some o → inst_cls o = cls →
          assoc_get "id" (inst_attrs o) ≠ Some row_id) →
  result (SQLAlchemySQLDbAdapter.update_values cls row_id kwargs s) =
    inl (update_values_error kwargs)
  ∧ result (SQLAlchemySQLDbAdapter.update_values cls row_id kwargs s) ≠ inr None
  ∧ state (SQLAlchemySQLDbAdapter.update_values cls row_id kwargs s) = s.
Proof.
  intros Hnone.
  destruct (update_values_no_row cls row_id kwargs s) as [out ->];
    [by apply rows_nil_field|].
  by cbn.
Qed.

Lemma update_values_missing_row_raises_witness :
  (∀ h o, objects example.empty_session !! h = Some o → inst_cls o = "User" →
          assoc_get "id" (inst_attrs o) ≠ Some (VInt 42))
  ∧ result (SQLAlchemySQLDbAdapter.update_values "User" (VInt 42)
              [("name", VStr "Bob")] example.empty_session) =
      inl (AttributeError "'NoneType' object has no attribute 'name'").
Proof.
  assert (∀ h o, objects example.empty_session !! h = Some o → inst_cls o = "User" →
                 assoc_get "id" (inst_attrs o) ≠ Some (VInt 42)) as Hnone.
  { intros h o Hlook. simpl in Hlook. by rewrite lookup_empty in Hlook. }
  split; [exact Hnone|].
  exact (proj1 (update_values_missing_row_raises "User" (VInt 42)
                  [("name", VStr "Bob")] example.empty_session Hnone)).
Defined.

(** C1 (the code departs from the claim).  The specification has
    [write_entity] raise the not-found error for an id that no record has.
    [write_entity] does raise, and returns neither a response nor a
    sentinel, but the error is the one [update_values] ends with: its own
    [ValueError] "Entity with id ... not found" is never reached. *)
Theorem write_entity_missing_id_raises spec request id s :
  (∀ h o, objects s !! h = Some o → inst_cls o = orm_model spec →
          assoc_get "id" (inst_attrs o) ≠ Some (VInt id)) →
  result (CRUDUseCase.write_entity spec request (Some id) s) =
    inl (update_values_error (model_dump_exclude_unset (request_entity request)))
  ∧ result (CRUDUseCase.write_entity spec request (Some id) s) ≠
      inl (ValueError ("Entity with id " +:+ pretty id +:+ " not found"))
  ∧ state (CRUDUseCase.write_entity spec request (Some id) s) = s.
Proof.
  intros Hnone. unfold CRUDUseCase.write_entity.
  destruct (update_values_no_row (orm_model spec) (VInt id)
              (model_dump_exclude_unset (request_entity request)) s)
    as [out Hupdate]; [by apply rows_nil_field|].
  erewrite bind_err; [|exact Hupdate].
  cbn [result state]. split_and!; [done| |done].
  unfold update_values_error, bind_keywords.
  destruct (list_find _ _) as [[? ?]|]; [done|].
  by destruct (model_dump_exclude_unset (request_entity request)).
Qed.

Lemma write_entity_missing_id_raises_witness :
  (∀ h o, objects example.alice_session !! h = Some o →
          inst_cls o = orm_model example.user_crud_spec →
          assoc_get "id" (inst_attrs o) ≠ Some (VInt 42))
  ∧ result (CRUDUseCase.write_entity example.user_crud_spec example.rename_to_bob
              (Some 42) example.alice_session) =
      inl (AttributeError "'NoneType' object has no attribute 'name'").
Proof.
  assert (∀ h o, objects example.alice_session !! h = Some o →
                 inst_cls o = orm_model example.user_crud_spec →
                 assoc_get "id" (inst_attrs o) ≠ Some (VInt 42)) as Hnone.
  { intros h o Hlook _. simpl in Hlook.
    apply lookup_singleton_Some in Hlook as [_ <-]. by simpl. }
  split; [exact Hnone|].
  exact (proj1 (write_entity_missing_id_raises example.user_crud_spec
                  example.rename_to_bob 42 example.alice_session Hnone)).
Defined.

(** C4, as the code has it.  For an existing record [r] with handle [h] and
    a partial update none of whose set fields is named like a parameter of
    [update_values] ([self], [class_table], [row_id]), [write_entity] with
    the record's id leaves the stored record with exactly the explicitly set
    fields of the write DTO at their new values and every other field at its
    old value; no other record changes. *)
Theorem write_entity_update_changes_exactly_set_fields spec request id s h r :
  no_clash ["self"; "class_table"; "row_id"]
           (model_dump_exclude_unset (request_entity request)) →
  head (session.rows (orm_model spec) [("id", VInt id)] s) = Some (h, r) →
  NoDup (model_fields (request_entity request)).*1 →
  ∃ r',
    objects (state (CRUDUseCase.write_entity spec request (Some id) s)) !! h = Some r'
    ∧ inst_cls r' = inst_cls r
    ∧ (∀ k v, (k, v) ∈ model_dump_exclude_unset (request_entity request) →
              assoc_get k (inst_attrs r') = Some v)
    ∧ (∀ k, k ∉ (model_dump_exclude_unset (request_entity request)).*1 →
            assoc_get k (inst_attrs r') = assoc_get k (inst_attrs r))
    ∧ (∀ h', h' ≠ h →
             objects (state (CRUDUseCase.write_entity spec request (Some id) s)) !! h'
             = objects s !! h').
Proof.
  intros Hno Hhead Hnd. rewrite (write_entity_update_state _ _ _ _ _ _ Hno Hhead).
  apply rows_head in Hhead as [Hlook _]. cbn [objects].
  exists (set_attrs (model_dump_exclude_unset (request_entity request)) r).
  split_and!.
  - by rewrite lookup_alter_eq, Hlook.
  - apply set_attrs_cls.
  - intros k v Hin. apply set_attrs_set; [by apply model_dump_NoDup | done].
  - intros k Hk. by apply set_attrs_other.
  - intros h' Hne. by rewrite lookup_alter_ne.
Qed.

Lemma write_entity_update_changes_exactly_set_fields_witness :
  no_clash ["self"; "class_table"; "row_id"]
           (model_dump_exclude_unset (request_entity example.rename_to_bob))
  ∧ head (session.rows (orm_model example.user_crud_spec) [("id", VInt 1)]
            example.alice_session) = Some (0%nat, example.alice)
  ∧ NoDup (model_fields (request_entity example.rename_to_bob)).*1
  ∧ ∃ r',
      objects (state (CRUDUseCase.write_entity example.user_crud_spec
                        example.rename_to_bob (Some 1) example.alice_session))
        !! 0%nat = Some r'
      ∧ assoc_get "name" (inst_attrs r') = Some (VStr "Bob")
      ∧ assoc_get "email" (inst_attrs r') = Some (VStr "alice@example.org").
Proof.
  assert (no_clash ["self"; "class_table"; "row_id"]
                   (model_dump_exclude_unset (request_entity example.rename_to_bob)))
    as Hno by (unfold no_clash; compute_done).
  assert (head (session.rows (orm_model example.user_crud_spec) [("id", VInt 1)]
                  example.alice_session) = Some (0%nat, example.alice)) as Hhead
    by (vm_compute; reflexivity).
  assert (NoDup (model_fields (request_entity example.rename_to_bob)).*1) as Hnd
    by compute_done.
  split; [exact Hno|]. split; [exact Hhead|]. split; [exact Hnd|].
  destruct (write_entity_update_changes_exactly_set_fields
              example.user_crud_spec example.rename_to_bob 1
              example.alice_session 0%nat example.alice Hno Hhead Hnd)
    as (r' & Hlook & _ & Hset & Hkeep & _).
  exists r'. split; [exact Hlook|]. split.
  - apply Hset. vm_compute. left.
  - rewrite Hkeep; [reflexivity|]. vm_compute. by intros ?%list_elem_of_singleton.
Defined.

(** C4, as the claim has it: a partial update whose set field is named
    [row_id] cannot be passed on to [update_values]; the call raises
    [TypeError] and the record, which exists, is left as it was. *)
Lemma write_entity_update_row_id_field :
  head (session.rows (orm_model example.user_crud_spec) [("id", VInt 1)]
          example.alice_session) = Some (0%nat, example.alice)
  ∧ model_dump_exclude_unset (request_entity request_with_row_id)
    = [("row_id", VInt 5)]
  ∧ result (CRUDUseCase.write_entity example.user_crud_spec request_with_row_id
              (Some 1) example.alice_session)
    = inl (TypeError ("SQLAlchemySQLDbAdapter.update_values() got multiple "
                      +:+ "values for argument 'row_id'"))
  ∧ state (CRUDUseCase.write_entity example.user_crud_spec request_with_row_id
             (Some 1) example.alice_session) = example.alice_session
  ∧ assoc_get "row_id" (inst_attrs example.alice) = None.
Proof. split_and!; vm_compute; reflexivity. Qed.








(** ** The pipeline *)

Lemma items_eq self h :
  array.items self h = Outcome (inr (default [] (h !! self))) h [].
Proof. reflexivity. Qed.

Lemma init_eq args h :
  array.init args h = Outcome (inr (length h)) (h ++ [array.init_items args]) [].
Proof. reflexivity. Qed.

Lemma safe_items_str_exception repr xs :
  (∀ v e, repr v = inl e → is_exception e = true) →
  array.safe_items_str repr xs = inr (safe_items_text repr xs).
Proof.
  intros Hrepr. unfold array.safe_items_str, safe_items_text.
  erewrite comprehension_all; [reflexivity|].
  apply Forall_forall. intros item _. unfold array.safe_repr.
  destruct (repr item) as [e|str] eqn:Hitem; [|done].
  by rewrite (Hrepr item e Hitem).
Qed.

(** When [repr] raises nothing but instances of [Exception], the decorator
    runs the function on the pipelines, hands on what it returns or raises,
    and only adds its two lines to the output. *)
Lemma wrapper_debug_eq {A} repr name (func : nat → M (list (list value)) A) self h b :
  (∀ v e, repr v = inl e → is_exception e = true) →
  array.wrapper_debug repr name func self (MkPipelines h b) =
    Outcome (result (func self h)) (MkPipelines (state (func self h)) b)
            (debug_output repr name self h b (func self h)).
Proof.
  intros Hrepr.
  unfold array.wrapper_debug, debug_output, before_line, after_line.
  destruct (func self h) as [[e|a] h' out] eqn:Hfunc;
    destruct b; unfold bind, array.on_heap, get, after; cbn;
    rewrite ?Hfunc; cbn;
    rewrite ?(safe_items_str_exception repr _ Hrepr); cbn;
    rewrite ?Hfunc; cbn;
    rewrite ?(safe_items_str_exception repr _ Hrepr); cbn;
    rewrite ?app_nil_r; reflexivity.
Qed.

Lemma debug_eq {A} B name (func : nat → M (list (list value)) A) self h b :
  array.debug B name func self (MkPipelines h b) =
    Outcome (result (func self h)) (MkPipelines (state (func self h)) b)
            (debug_output (py_repr B) name self h b (func self h)).
Proof. apply wrapper_debug_eq, py_repr_exception. Qed.

Lemma new_eq args p :
  array.new args p =
    Outcome (inr (length (heap p)))
      (MkPipelines (heap p ++ [array.init_items args]) (debug_active p)) [].
Proof. reflexivity. Qed.

Lemma build_eq self p :
  array.build None self p = Outcome (inr (VList (default [] (heap p !! self)))) p [].
Proof. destruct p. reflexivity. Qed.

Lemma pipelines_eta p : MkPipelines (heap p) (debug_active p) = p.
Proof. by destruct p. Qed.

(** A decorated method whose function replaces the items by [f items]. *)
Lemma debug_update B name (func : nat → M (list (list value)) nat) f self p :
  (∀ h, func self h = Outcome (inr self) (<[self := f (default [] (h !! self))]> h) []) →
  ∃ out,
    array.debug B name func self p =
      Outcome (inr self)
        (MkPipelines (<[self := f (default [] (heap p !! self))]> (heap p))
                     (debug_active p))
        out.
Proof.
  intros Hfunc. destruct p as [h b]. rewrite debug_eq, Hfunc.
  eexists. reflexivity.
Qed.

Lemma reverse_eq B self p :
  ∃ out,
    array.reverse B self p =
      Outcome (inr self)
        (MkPipelines (<[self := rev (default [] (heap p !! self))]> (heap p))
                     (debug_active p))
        out.
Proof. apply (debug_update B "reverse" array.func.reverse (@rev value)). reflexivity. Qed.

Lemma flatten_eq B self p :
  ∃ out,
    array.flatten B self p =
      Outcome (inr self)
        (MkPipelines
           (<[self := array.unpack (VList (default [] (heap p !! self)))]> (heap p))
           (debug_active p))
        out.
Proof.
  apply (debug_update B "flatten" array.func.flatten (λ xs, array.unpack (VList xs))).
  reflexivity.
Qed.

(** The newest pipeline, read and written. *)
Lemma lookup_newest (h : list (list value)) xs : (h ++ [xs]) !! length h = Some xs.
Proof. by rewrite list_lookup_middle. Qed.

Lemma insert_newest (h : list (list value)) xs ys :
  <[length h := ys]> (h ++ [xs]) = h ++ [ys].
Proof.
  rewrite insert_app_r_alt by done. by rewrite Nat.sub_diag.
Qed.

Lemma init_items_args args :
  (∀ a, args = [a] → is_list_tuple_set a = false) → array.init_items args = args.
Proof.
  intros Hsingle. destruct args as [|a [|a' args]]; [done| |done].
  simpl. by rewrite (Hsingle a).
Qed.

(** [array( *args ).reverse().reverse().build()] returns the list the
    constructor made of its arguments. *)
Lemma reverse_reverse_build_eq B args p :
  result (example.reverse_reverse_build B args p) = inr (VList (array.init_items args)).
Proof.
  unfold example.reverse_reverse_build.
  erewrite bind_ok; [|apply new_eq]. rewrite after_nil.
  destruct (reverse_eq B (length (heap p))
              (MkPipelines (heap p ++ [array.init_items args]) (debug_active p)))
    as [out1 Hrev1].
  erewrite bind_ok; [|exact Hrev1]. cbn [heap debug_active].
  rewrite lookup_newest, insert_newest. cbn [default].
  destruct (reverse_eq B (length (heap p))
              (MkPipelines (heap p ++ [rev (array.init_items args)]) (debug_active p)))
    as [out2 Hrev2].
  erewrite bind_ok; [|exact Hrev2]. cbn [heap debug_active].
  rewrite lookup_newest, insert_newest. cbn [default].
  rewrite build_eq. cbn [after result heap]. rewrite lookup_newest.
  cbn. by rewrite rev_involutive.
Qed.

(** C7, as the code has it.  For arguments that are not a single list, tuple
    or set, [array(x1, ..., xn).reverse().reverse().build()] is
    [[x1, ..., xn]].  (A single list, tuple or set is unpacked by the
    constructor, and the pipeline then returns its elements.) *)
Theorem reverse_reverse_is_identity B args p :
  (∀ a, args = [a] → is_list_tuple_set a = false) →
  result (example.reverse_reverse_build B args p) = inr (VList args).
Proof.
  intros Hsingle. rewrite reverse_reverse_build_eq. by rewrite init_items_args.
Qed.

Lemma reverse_reverse_is_identity_witness :
  (∀ a, [VInt 3; VInt 1; VInt 2] = [a] → is_list_tuple_set a = false)
  ∧ result (example.reverse_reverse_build example.simple_builtins
              [VInt 3; VInt 1; VInt 2] example.no_pipelines_debug)
    = inr (VList [VInt 3; VInt 1; VInt 2]).
Proof.
  assert (∀ a, [VInt 3; VInt 1; VInt 2] = [a] → is_list_tuple_set a = false)
    as Hsingle by (intros a Heq; discriminate Heq).
  split; [exact Hsingle|].
  exact (reverse_reverse_is_identity example.simple_builtins
           [VInt 3; VInt 1; VInt 2] example.no_pipelines_debug Hsingle).
Defined.

(** C7, as the claim has it: with the single element [[1, 2]], the pipeline
    returns [[1, 2]] and not [[[1, 2]]]. *)
Lemma reverse_reverse_single_list :
  result (example.reverse_reverse_build example.simple_builtins
            [VList [VInt 1; VInt 2]] example.no_pipelines)
  = inr (VList [VInt 1; VInt 2])
  ∧ result (example.reverse_reverse_build example.simple_builtins
              [VList [VInt 1; VInt 2]] example.no_pipelines)
    ≠ inr (VList [VList [VInt 1; VInt 2]]).
Proof. split; [vm_compute; reflexivity | vm_compute; discriminate]. Qed.




(** [unpack] on a list is the concatenation of [unpack] on its elements. *)
Lemma unpack_list l : array.unpack (VList l) = concat (array.unpack <$> l).
Proof. reflexivity. Qed.

Lemma unpack_leaf v : is_list v = false → array.unpack v = [v].
Proof. by destruct v. Qed.

Lemma unpack_app l1 l2 :
  array.unpack (VList (l1 ++ l2)) = array.unpack (VList l1) ++ array.unpack (VList l2).
Proof. by rewrite !unpack_list, fmap_app, concat_app. Qed.

Lemma unpack_cons x l :
  array.unpack (VList (x :: l)) = array.unpack x ++ array.unpack (VList l).
Proof. reflexivity. Qed.

Lemma unpack_flat v : Forall (λ x, is_list x = false) (array.unpack v).
Proof.
  induction v as [| | | |l IH| | | |] using value_ind;
    try (by repeat constructor).
  rewrite unpack_list. induction IH as [|x Hx l _ IHl]; simpl.
  - constructor.
  - apply Forall_app. by split.
Qed.

Lemma flatten_build_eq B args p :
  result (example.flatten_build B args p) =
    inr (VList (array.unpack (VList (array.init_items args)))).
Proof.
  unfold example.flatten_build.
  erewrite bind_ok; [|apply new_eq]. rewrite after_nil.
  destruct (flatten_eq B (length (heap p))
              (MkPipelines (heap p ++ [array.init_items args]) (debug_active p)))
    as [out Hflat].
  erewrite bind_ok; [|exact Hflat]. cbn [heap debug_active].
  rewrite lookup_newest, insert_newest. cbn [default].
  rewrite build_eq. cbn [after result heap]. by rewrite lookup_newest.
Qed.

(** C8, as the code has it: the sequences that [flatten] opens are the
    lists, and only those.  [flatten] replaces the items by the elements
    that are not lists, found at any depth of nesting of lists, in their
    order from left to right: the result holds no list; a value that is not
    a list, a tuple or a set among them, is kept as it is, with what it
    holds; the result for a list is the concatenation of the results for
    its elements, so that the brackets of a nested list can be dropped
    where it stands.
    [array([1, [2, 3], [4, [5, 6]]]).flatten().build()] is
    [[1, 2, 3, 4, 5, 6]]. *)
Theorem flatten_is_flat_and_in_order B args p v x l pre inner post :
  result (example.flatten_build B args p) =
    inr (VList (array.unpack (VList (array.init_items args))))
  ∧ Forall (λ x, is_list x = false) (array.unpack v)
  ∧ (is_list v = false → array.unpack v = [v])
  ∧ array.unpack (VList []) = []
  ∧ array.unpack (VList (x :: l)) = array.unpack x ++ array.unpack (VList l)
  ∧ array.unpack (VList (pre ++ VList inner :: post)) =
      array.unpack (VList (pre ++ inner ++ post))
  ∧ result (example.flatten_build B
              [VList [VInt 1; VList [VInt 2; VInt 3];
                      VList [VInt 4; VList [VInt 5; VInt 6]]]] p)
    = inr (VList [VInt 1; VInt 2; VInt 3; VInt 4; VInt 5; VInt 6]).
Proof.
  split_and!.
  - apply flatten_build_eq.
  - apply unpack_flat.
  - apply unpack_leaf.
  - reflexivity.
  - apply unpack_cons.
  - by rewrite !unpack_app, unpack_cons.
  - by rewrite flatten_build_eq.
Qed.

(** C8, as the claim has it: a tuple and a set are sequences, and [flatten]
    leaves them nested.  [array([1, (2, [3, 4]), {5}]).flatten().build()] is
    [[1, (2, [3, 4]), {5}]], with the list [[3, 4]] still inside the tuple,
    and not the flat [[1, 2, 3, 4, 5]]. *)
Lemma flatten_keeps_nested_tuples :
  result (example.flatten_build example.simple_builtins
            [VList [VInt 1; VTuple [VInt 2; VList [VInt 3; VInt 4]]; VSet [VInt 5]]]
            example.no_pipelines)
  = inr (VList [VInt 1; VTuple [VInt 2; VList [VInt 3; VInt 4]]; VSet [VInt 5]])
  ∧ result (example.flatten_build example.simple_builtins
              [VList [VInt 1; VTuple [VInt 2; VList [VInt 3; VInt 4]]; VSet [VInt 5]]]
              example.no_pipelines)
    ≠ inr (VList [VInt 1; VInt 2; VInt 3; VInt 4; VInt 5]).
Proof. split; [vm_compute; reflexivity | vm_compute; discriminate]. Qed.






(** * Further properties of the record adapter *)

(** [update_value], unlike [update_values], has a guard for the row that is
    not found: when no filter is named like one of its parameters and no row
    satisfies the filters, it returns [None], commits nothing and changes
    nothing. *)
Theorem update_value_miss_returns_none cls key v kwargs s :
  no_clash ["self"; "class_table"; "key"; "value"] kwargs →
  (∀ h o, objects s !! h = Some o → session.matches cls kwargs o = false) →
  SQLAlchemySQLDbAdapter.update_value cls key v kwargs s = Outcome (inr None) s [].
Proof.
  intros Hno Hnone. unfold SQLAlchemySQLDbAdapter.update_value.
  rewrite (bind_keywords_no_clash _ _ _ Hno). unfold lift. rewrite bind_ret_l.
  erewrite bind_ok; [|apply query_first_eq]. rewrite after_nil.
  by rewrite (proj2 (rows_nil cls kwargs s) Hnone).
Qed.

Lemma update_value_miss_returns_none_witness :
  no_clash ["self"; "class_table"; "key"; "value"] [("name", VStr "Carol")]
  ∧ (∀ h o, objects example.alice_session !! h = Some o →
            session.matches "User" [("name", VStr "Carol")] o = false)
  ∧ SQLAlchemySQLDbAdapter.update_value "User" "email" (VStr "c@example.org")
      [("name", VStr "Carol")] example.alice_session
    = Outcome (inr None) example.alice_session [].
Proof.
  assert (no_clash ["self"; "class_table"; "key"; "value"] [("name", VStr "Carol")])
    as Hno by (unfold no_clash; compute_done).
  assert (∀ h o, objects example.alice_session !! h = Some o →
                 session.matches "User" [("name", VStr "Carol")] o = false) as Hnone.
  { intros h o Hlook. simpl in Hlook.
    apply lookup_singleton_Some in Hlook as [_ <-]. reflexivity. }
  split; [exact Hno|]. split; [exact Hnone|].
  exact (update_value_miss_returns_none "User" "email" (VStr "c@example.org")
           [("name", VStr "Carol")] example.alice_session Hno Hnone).
Defined.

Lemma update_value_row cls key v kwargs s h o :
  no_clash ["self"; "class_table"; "key"; "value"] kwargs →
  head (session.rows cls kwargs s) = Some (h, o) →
  SQLAlchemySQLDbAdapter.update_value cls key v kwargs s =
    Outcome (inr (Some h))
      (MkSession
         (alter (λ o, Inst (inst_cls o) (assoc_set key v (inst_attrs o))) h (objects s))
         (S (commits s)) (next_id s))
      [].
Proof.
  intros Hno Hhead. unfold SQLAlchemySQLDbAdapter.update_value.
  rewrite (bind_keywords_no_clash _ _ _ Hno). unfold lift. rewrite bind_ret_l.
  erewrite bind_ok; [|apply query_first_eq]. rewrite after_nil.
  rewrite (head_fst _ _ Hhead). reflexivity.
Qed.

(** When no filter is named like one of its parameters, [update_value] sets
    the one field on the first row that satisfies the filters, keeps every
    other attribute of the row and every other row, and commits once. *)
Theorem update_value_sets_one_field cls key v kwargs s h o :
  no_clash ["self"; "class_table"; "key"; "value"] kwargs →
  head (session.rows cls kwargs s) = Some (h, o) →
  result (SQLAlchemySQLDbAdapter.update_value cls key v kwargs s) = inr (Some h)
  ∧ commits (state (SQLAlchemySQLDbAdapter.update_value cls key v kwargs s))
    = S (commits s)
  ∧ ∃ o',
      objects (state (SQLAlchemySQLDbAdapter.update_value cls key v kwargs s)) !! h
        = Some o'
      ∧ inst_cls o' = inst_cls o
      ∧ assoc_get key (inst_attrs o') = Some v
      ∧ (∀ k, k ≠ key → assoc_get k (inst_attrs o') = assoc_get k (inst_attrs o))
      ∧ (∀ h', h' ≠ h →
           objects (state (SQLAlchemySQLDbAdapter.update_value cls key v kwargs s)) !! h'
           = objects s !! h').
Proof.
  intros Hno Hhead. rewrite (update_value_row _ _ _ _ _ _ _ Hno Hhead).
  apply rows_head in Hhead as [Hlook _]. cbn [result state commits objects].
  split; [done|]. split; [done|].
  exists (Inst (inst_cls o) (assoc_set key v (inst_attrs o))). split_and!.
  - by rewrite lookup_alter_eq, Hlook.
  - done.
  - apply assoc_get_set_eq.
  - intros k Hne. by apply assoc_get_set_ne.
  - intros h' Hne. by rewrite lookup_alter_ne.
Qed.

Lemma update_value_sets_one_field_witness :
  no_clash ["self"; "class_table"; "key"; "value"] [("name", VStr "Alice")]
  ∧ head (session.rows "User" [("name", VStr "Alice")] example.alice_session)
    = Some (0%nat, example.alice)
  ∧ ∃ o',
      objects (state (SQLAlchemySQLDbAdapter.update_value "User" "email"
                        (VStr "a@example.org") [("name", VStr "Alice")]
                        example.alice_session)) !! 0%nat = Some o'
      ∧ assoc_get "email" (inst_attrs o') = Some (VStr "a@example.org")
      ∧ assoc_get "name" (inst_attrs o') = Some (VStr "Alice").
Proof.
  assert (no_clash ["self"; "class_table"; "key"; "value"] [("name", VStr "Alice")])
    as Hno by (unfold no_clash; compute_done).
  assert (head (session.rows "User" [("name", VStr "Alice")] example.alice_session)
          = Some (0%nat, example.alice)) as Hhead by (vm_compute; reflexivity).
  split; [exact Hno|]. split; [exact Hhead|].
  destruct (update_value_sets_one_field "User" "email" (VStr "a@example.org")
              [("name", VStr "Alice")] example.alice_session 0%nat example.alice
              Hno Hhead)
    as (_ & _ & o' & Hlook & _ & Hset & Hkeep & _).
  exists o'. split; [exact Hlook|]. split; [exact Hset|].
  rewrite Hkeep; [reflexivity | discriminate].
Defined.

Lemma bind_keywords_clash f params kwargs :
  Exists (λ kv, kv.1 ∈ params) kwargs →
  ∃ k, k ∈ params ∧ k ∈ kwargs.*1
       ∧ bind_keywords f params kwargs
         = inl (TypeError (f +:+ "() got multiple values for argument '" +:+ k +:+ "'")).
Proof.
  intros Hclash. unfold bind_keywords.
  destruct (list_find (λ kv : string * value, kv.1 ∈ params) kwargs)
    as [[i kv]|] eqn:Hfind.
  - apply list_find_Some in Hfind as (Hi & Hkv & _).
    exists kv.1. split; [done|]. split; [|done].
    apply list_elem_of_fmap. exists kv. split; [done|].
    by eapply list_elem_of_lookup_2.
  - apply list_find_None in Hfind. apply Exists_exists in Hclash as (kv & Hin & Hkv).
    rewrite Forall_forall in Hfind. by destruct (Hfind kv Hin).
Qed.

(** A keyword named like a parameter the call has already filled makes the
    call itself fail: [update_values] with a field named [row_id],
    [class_table] or [self], and [update_value] with a filter named [key],
    [value], [class_table] or [self], raise [TypeError] and leave the
    session as it was, whether or not a row would have been found. *)
Theorem update_keyword_named_like_a_parameter_raises cls row_id key v kwargs s :
  (Exists (λ kv, kv.1 ∈ ["self"; "class_table"; "row_id"]) kwargs →
   ∃ k, k ∈ ["self"; "class_table"; "row_id"] ∧ k ∈ kwargs.*1
        ∧ SQLAlchemySQLDbAdapter.update_values cls row_id kwargs s
          = Outcome
              (inl (TypeError ("SQLAlchemySQLDbAdapter.update_values"
                               +:+ "() got multiple values for argument '"
                               +:+ k +:+ "'")))
              s [])
  ∧ (Exists (λ kv, kv.1 ∈ ["self"; "class_table"; "key"; "value"]) kwargs →
     ∃ k, k ∈ ["self"; "class_table"; "key"; "value"] ∧ k ∈ kwargs.*1
          ∧ SQLAlchemySQLDbAdapter.update_value cls key v kwargs s
            = Outcome
                (inl (TypeError ("SQLAlchemySQLDbAdapter.update_value"
                                 +:+ "() got multiple values for argument '"
                                 +:+ k +:+ "'")))
                s []).
Proof.
  split; intros Hclash.
  - destruct (bind_keywords_clash "SQLAlchemySQLDbAdapter.update_values" _ _ Hclash)
      as (k & Hk & Hin & Hbind).
    exists k. split; [done|]. split; [done|].
    unfold SQLAlchemySQLDbAdapter.update_values. by rewrite Hbind.
  - destruct (bind_keywords_clash "SQLAlchemySQLDbAdapter.update_value" _ _ Hclash)
      as (k & Hk & Hin & Hbind).
    exists k. split; [done|]. split; [done|].
    unfold SQLAlchemySQLDbAdapter.update_value. by rewrite Hbind.
Qed.

Lemma update_keyword_named_like_a_parameter_raises_witness :
  Exists (λ kv, kv.1 ∈ ["self"; "class_table"; "row_id"])
         [("name", VStr "Bob"); ("row_id", VInt 5)]
  ∧ ∃ k, k ∈ ["self"; "class_table"; "row_id"]
         ∧ k ∈ [("name", VStr "Bob"); ("row_id", VInt 5)].*1
         ∧ SQLAlchemySQLDbAdapter.update_values "User" (VInt 1)
             [("name", VStr "Bob"); ("row_id", VInt 5)] example.alice_session
           = Outcome
               (inl (TypeError ("SQLAlchemySQLDbAdapter.update_values"
                                +:+ "() got multiple values for argument '"
                                +:+ k +:+ "'")))
               example.alice_session [].
Proof.
  assert (Exists (λ kv, kv.1 ∈ ["self"; "class_table"; "row_id"])
                 [("name", VStr "Bob"); ("row_id", VInt 5)]) as Hclash
    by compute_done.
  split; [exact Hclash|].
  exact (proj1 (update_keyword_named_like_a_parameter_raises "User" (VInt 1) "name"
                  (VStr "Bob") [("name", VStr "Bob"); ("row_id", VInt 5)]
                  example.alice_session) Hclash).
Defined.

Lemma matches_spec cls kwargs o :
  session.matches cls kwargs o = true ↔
  inst_cls o = cls ∧ ∀ k v, (k, v) ∈ kwargs → assoc_get k (inst_attrs o) = Some v.
Proof.
  unfold session.matches. rewrite andb_true_iff, bool_decide_eq_true.
  rewrite forallb_forall. split; intros [Hcls Hall]; (split; [done|]).
  - intros k v Hin. apply list_elem_of_In in Hin.
    specialize (Hall (k, v) Hin). by apply bool_decide_eq_true in Hall.
  - intros [k v] Hin. apply bool_decide_eq_true. apply Hall.
    by apply list_elem_of_In.
Qed.



(** [delete_all_values] removes every row of the class, keeps the rows of
    the other classes, and commits once; the class then reads as empty. *)
Theorem delete_all_values_empties_the_class cls s :
  result (SQLAlchemySQLDbAdapter.delete_all_values cls s) = inr tt
  ∧ objects (state (SQLAlchemySQLDbAdapter.delete_all_values cls s)) =
      filter (λ ho, inst_cls ho.2 ≠ cls) (objects s)
  ∧ commits (state (SQLAlchemySQLDbAdapter.delete_all_values cls s)) = S (commits s)
  ∧ result (SQLAlchemySQLDbAdapter.read_all_values cls
              (state (SQLAlchemySQLDbAdapter.delete_all_values cls s))) = inr [].
Proof.
  unfold SQLAlchemySQLDbAdapter.delete_all_values.
  erewrite bind_ok; [|apply query_all_eq]. rewrite after_nil.
  erewrite bind_ok; [|apply delete_loop]. rewrite after_nil.
  cbn [session.commit modify result state objects commits].
  rewrite delete_matching.
  assert (filter (λ ho, session.matches cls [] ho.2 = false) (objects s)
          = filter (λ ho : nat * instance, inst_cls ho.2 ≠ cls) (objects s)) as Hfilter.
  { apply map_filter_ext. intros h o _. unfold session.matches. simpl.
    rewrite andb_true_r. by rewrite bool_decide_eq_false. }
  split_and!; try done.
  unfold SQLAlchemySQLDbAdapter.read_all_values. rewrite query_all_eq.
  cbn [result]. by rewrite rows_after_delete.
Qed.


(** A second [delete_value] with the same filters deletes nothing more: it
    only commits again. *)
Theorem delete_value_twice cls kwargs s :
  objects (state (SQLAlchemySQLDbAdapter.delete_value cls kwargs
                    (state (SQLAlchemySQLDbAdapter.delete_value cls kwargs s))))
  = objects (state (SQLAlchemySQLDbAdapter.delete_value cls kwargs s))
  ∧ commits (state (SQLAlchemySQLDbAdapter.delete_value cls kwargs
                      (state (SQLAlchemySQLDbAdapter.delete_value cls kwargs s))))
    = S (S (commits s)).
Proof.
  rewrite !delete_value_eq. cbn [state objects commits]. split; [|done].
  apply map_eq. intros h. apply option_eq. intros o.
  rewrite !map_lookup_filter_Some. cbn. tauto.
Qed.

Lemma add_eq new_row s :
  session.add new_row s =
    Outcome (inr (fresh (dom (objects s))))
      (MkSession (<[fresh (dom (objects s)) := persisted s new_row]> (objects s))
                 (commits s)
                 (match assoc_get "id" (inst_attrs new_row) with
                  | Some _ => next_id s
                  | None => next_id s + 1
                  end))
      [].
Proof.
  unfold session.add, persisted.
  erewrite bind_ok; [|reflexivity]. rewrite after_nil.
  by destruct (assoc_get "id" (inst_attrs new_row)).
Qed.

Lemma fresh_handle_unused (s : Session) : objects s !! fresh (dom (objects s)) = None.
Proof. apply not_elem_of_dom. apply is_fresh. Qed.

Lemma persisted_cls s new_row : inst_cls (persisted s new_row) = inst_cls new_row.
Proof. unfold persisted. by destruct (assoc_get "id" (inst_attrs new_row)). Qed.

Lemma persisted_attrs s new_row k :
  k ≠ "id" →
  assoc_get k (inst_attrs (persisted s new_row)) = assoc_get k (inst_attrs new_row).
Proof.
  intros Hne. unfold persisted.
  destruct (assoc_get "id" (inst_attrs new_row)); [done|].
  simpl. by apply assoc_get_set_ne.
Qed.

Lemma persisted_with_id s new_row i :
  assoc_get "id" (inst_attrs new_row) = Some i → persisted s new_row = new_row.
Proof. intros Hid. unfold persisted. by rewrite Hid. Qed.

(** [add_value] makes the row persistent under a handle that was not in use,
    with its class and its attributes (a row that brings its id is stored as
    it is), keeps every row that was there, commits once and returns the
    handle. *)
Theorem add_value_persists_the_row new_row s :
  ∃ h o,
    result (SQLAlchemySQLDbAdapter.add_value new_row s) = inr h
    ∧ objects s !! h = None
    ∧ objects (state (SQLAlchemySQLDbAdapter.add_value new_row s)) !! h = Some o
    ∧ inst_cls o = inst_cls new_row
    ∧ (∀ k, k ≠ "id" → assoc_get k (inst_attrs o) = assoc_get k (inst_attrs new_row))
    ∧ (is_Some (assoc_get "id" (inst_attrs new_row)) → o = new_row)
    ∧ (∀ h', h' ≠ h →
         objects (state (SQLAlchemySQLDbAdapter.add_value new_row s)) !! h'
         = objects s !! h')
    ∧ commits (state (SQLAlchemySQLDbAdapter.add_value new_row s)) = S (commits s).
Proof.
  exists (fresh (dom (objects s))), (persisted s new_row).
  unfold SQLAlchemySQLDbAdapter.add_value.
  erewrite bind_ok; [|apply add_eq]. rewrite after_nil.
  cbn [session.commit session.refresh modify ret bind after result state output
       objects commits].
  split_and!.
  - done.
  - apply fresh_handle_unused.
  - by rewrite lookup_insert_eq.
  - apply persisted_cls.
  - intros k Hne. by apply persisted_attrs.
  - intros [i Hid]. by eapply persisted_with_id.
  - intros h' Hne. by rewrite lookup_insert_ne.
  - done.
Qed.

(** The loop of [add_values] stores each new row under a handle that was not
    in use, keeps every row that was there, and commits nothing. *)
Lemma add_all_keeps new_rows s :
  ∃ s', session.add_all new_rows s = Outcome (inr tt) s' []
        ∧ objects s ⊆ objects s' ∧ commits s' = commits s
        ∧ size (objects s') = (size (objects s) + length new_rows)%nat
        ∧ ∀ r, r ∈ new_rows →
               ∃ h o, objects s !! h = None ∧ objects s' !! h = Some o
                      ∧ inst_cls o = inst_cls r
                      ∧ ∀ k, k ≠ "id" →
                             assoc_get k (inst_attrs o) = assoc_get k (inst_attrs r).
Proof.
  revert s. induction new_rows as [|r new_rows IH]; intros s.
  - exists s. split_and!; [done|done|done|simpl; lia|].
    intros r Hin. by apply elem_of_nil in Hin.
  - unfold session.add_all. cbn [for_in]. fold (session.add_all new_rows).
    erewrite bind_ok.
    2:{ erewrite bind_ok; [|apply add_eq]. rewrite after_nil. reflexivity. }
    rewrite after_nil.
    destruct (IH (MkSession (<[fresh (dom (objects s)) := persisted s r]> (objects s))
                    (commits s)
                    (match assoc_get "id" (inst_attrs r) with
                     | Some _ => next_id s
                     | None => next_id s + 1
                     end))) as (s' & Heq & Hsub & Hcommits & Hsize & Hnew).
    cbn [objects commits] in *.
    assert (objects s ⊆ <[fresh (dom (objects s)) := persisted s r]> (objects s))
      as Hsub1 by apply insert_subseteq, fresh_handle_unused.
    exists s'. split_and!.
    + exact Heq.
    + by etrans.
    + exact Hcommits.
    + rewrite Hsize, map_size_insert_None by apply fresh_handle_unused.
      simpl. lia.
    + intros r' Hin. apply elem_of_cons in Hin as [->|Hin].
      * exists (fresh (dom (objects s))), (persisted s r). split_and!.
        -- apply fresh_handle_unused.
        -- eapply lookup_weaken; [|exact Hsub]. apply lookup_insert_eq.
        -- apply persisted_cls.
        -- intros k Hne. by apply persisted_attrs.
      * destruct (Hnew r' Hin) as (h & o & Hfree & Hlook & Hcls & Hattrs).
        exists h, o. split_and!; try done.
        destruct (objects s !! h) as [x|] eqn:Hx; [|done].
        by rewrite (lookup_weaken _ _ _ _ Hx Hsub1) in Hfree.
Qed.

(** [add_values] stores every row it is given, commits once, whatever the
    number of rows, and returns the rows of the whole table as read after
    the commit: each new row of the class is among them, under a handle that
    was not in use, and so is every row of the class that was there
    before. *)
Theorem add_values_returns_the_whole_table cls new_rows s :
  ∃ hs,
    result (SQLAlchemySQLDbAdapter.add_values cls new_rows s) = inr hs
    ∧ commits (state (SQLAlchemySQLDbAdapter.add_values cls new_rows s))
      = S (commits s)
    ∧ size (objects (state (SQLAlchemySQLDbAdapter.add_values cls new_rows s)))
      = (size (objects s) + length new_rows)%nat
    ∧ result (SQLAlchemySQLDbAdapter.read_all_values cls
                (state (SQLAlchemySQLDbAdapter.add_values cls new_rows s))) = inr hs
    ∧ (∀ r, r ∈ new_rows → inst_cls r = cls →
            ∃ h o,
              h ∈ hs ∧ objects s !! h = None
              ∧ objects (state (SQLAlchemySQLDbAdapter.add_values cls new_rows s)) !! h
                = Some o
              ∧ inst_cls o = cls
              ∧ ∀ k, k ≠ "id" →
                     assoc_get k (inst_attrs o) = assoc_get k (inst_attrs r))
    ∧ ∀ h o, objects s !! h = Some o → inst_cls o = cls → h ∈ hs.
Proof.
  destruct (add_all_keeps new_rows s)
    as (s' & Hadd & Hsub & Hcommits & Hsize & Hnew).
  unfold SQLAlchemySQLDbAdapter.add_values.
  erewrite bind_ok; [|exact Hadd]. rewrite after_nil.
  erewrite bind_ok; [|reflexivity]. rewrite after_nil.
  unfold SQLAlchemySQLDbAdapter.read_all_values. rewrite !query_all_eq.
  cbn [result state commits objects].
  assert (∀ h o, objects s' !! h = Some o → inst_cls o = cls →
                 h ∈ (session.rows cls []
                        (MkSession (objects s') (S (commits s')) (next_id s'))).*1)
    as Hrows.
  { intros h o Hlook Hcls. apply list_elem_of_fmap. exists (h, o). split; [done|].
    apply rows_elem_of. cbn [objects]. split; [done|].
    apply matches_spec. split; [done|]. intros k v Hin. by apply elem_of_nil in Hin. }
  eexists. split; [reflexivity|]. split; [by rewrite Hcommits|].
  split; [exact Hsize|]. split; [reflexivity|]. split.
  - intros r Hin Hcls.
    destruct (Hnew r Hin) as (h & o & Hfree & Hlook & Hocls & Hattrs).
    exists h, o. split_and!; try done; [|congruence].
    apply (Hrows h o Hlook). congruence.
  - intros h o Hlook Hcls. apply (Hrows h o); [|done]. by eapply lookup_weaken.
Qed.

(** Pages do not overlap and leave no gap: for a page size [n ≥ 0] and a
    page number [k ≥ 1], the rows before page [k] followed by page [k] are
    the first [k * n] rows of the table; a page has at most [n] rows, and
    reading a page changes nothing. *)
Theorem pagination_pages_are_consecutive cls n k s :
  0 ≤ n → 1 ≤ k →
  ∃ all page,
    result (SQLAlchemySQLDbAdapter.read_all_values cls s) = inr all
    ∧ SQLAlchemySQLDbAdapter.read_all_values_with_pagination cls n k s
      = Outcome (inr page) s []
    ∧ (length page ≤ Z.to_nat n)%nat
    ∧ take (Z.to_nat ((k - 1) * n)) all ++ page = take (Z.to_nat (k * n)) all.
Proof.
  intros Hn Hk. exists (session.rows cls [] s).*1.
  exists (take (Z.to_nat n) (drop (Z.to_nat ((k - 1) * n)) (session.rows cls [] s).*1)).
  split; [reflexivity|]. split; [reflexivity|]. split.
  - rewrite length_take. lia.
  - rewrite take_take_drop. f_equal. nia.
Qed.

Lemma pagination_pages_are_consecutive_witness :
  0 ≤ 2 ∧ 1 ≤ 3
  ∧ ∃ all page,
      result (SQLAlchemySQLDbAdapter.read_all_values "User" example.alice_session)
        = inr all
      ∧ SQLAlchemySQLDbAdapter.read_all_values_with_pagination "User" 2 3
          example.alice_session = Outcome (inr page) example.alice_session []
      ∧ (length page ≤ Z.to_nat 2)%nat
      ∧ take (Z.to_nat ((3 - 1) * 2)) all ++ page = take (Z.to_nat (3 * 2)) all.
Proof.
  assert (0 ≤ 2) as Hn by lia. assert (1 ≤ 3) as Hk by lia.
  split; [exact Hn|]. split; [exact Hk|].
  exact (pagination_pages_are_consecutive "User" 2 3 example.alice_session Hn Hk).
Defined.

(** * Further properties of the use cases *)

Lemma assoc_get_not_in k (d : list (string * value)) :
  k ∉ d.*1 → assoc_get k d = None.
Proof.
  induction d as [|[k' v'] d IH]; intros Hk; simpl; [done|].
  rewrite fmap_cons in Hk. apply not_elem_of_cons in Hk as [Hne Hk].
  rewrite decide_False by done. by apply IH.
Qed.

Lemma assoc_get_in k v (d : list (string * value)) :
  NoDup d.*1 → (k, v) ∈ d → assoc_get k d = Some v.
Proof.
  induction d as [|[k' v'] d IH]; intros Hnd Hin; simpl.
  - by apply elem_of_nil in Hin.
  - rewrite fmap_cons in Hnd. apply NoDup_cons in Hnd as [Hk' Hnd].
    apply elem_of_cons in Hin as [Heq|Hin].
    + injection Heq as -> ->. by rewrite decide_True.
    + rewrite decide_False; [by apply IH|].
      intros ->. apply Hk'. apply list_elem_of_fmap. by exists (k, v).
Qed.

(** [to_orm_write] hands the constructor of the mapped class the explicitly
    set fields of the DTO and no other: a field that was not set is not an
    attribute of the new object, a field that was set has the DTO's value. *)
Theorem to_orm_write_takes_the_set_fields spec dto k v :
  inst_cls (to_orm_write spec dto) = orm_model spec
  ∧ (k ∉ model_fields_set dto →
     assoc_get k (inst_attrs (to_orm_write spec dto)) = None)
  ∧ (NoDup (model_fields dto).*1 → k ∈ model_fields_set dto →
     (k, v) ∈ model_fields dto →
     assoc_get k (inst_attrs (to_orm_write spec dto)) = Some v).
Proof.
  split; [done|]. split.
  - intros Hunset. apply assoc_get_not_in. cbn.
    intros Hin. apply list_elem_of_fmap in Hin as [[k' v'] [-> Hin]].
    unfold model_dump_exclude_unset in Hin.
    by apply list_elem_of_filter in Hin as [Hset _].
  - intros Hnd Hset Hin. apply assoc_get_in; [by apply model_dump_NoDup|].
    unfold model_dump_exclude_unset. by apply list_elem_of_filter.
Qed.

Lemma add_value_eq new_row s :
  SQLAlchemySQLDbAdapter.add_value new_row s =
    Outcome (inr (fresh (dom (objects s))))
      (MkSession (<[fresh (dom (objects s)) := persisted s new_row]> (objects s))
                 (S (commits s))
                 (match assoc_get "id" (inst_attrs new_row) with
                  | Some _ => next_id s
                  | None => next_id s + 1
                  end))
      [].
Proof.
  unfold SQLAlchemySQLDbAdapter.add_value.
  erewrite bind_ok; [|apply add_eq]. by rewrite after_nil.
Qed.

(** Creating an entity stores and commits the new record before the
    response is built: the record made of the set fields is in the session
    afterwards, whether the projection to the read model succeeds, in which
    case it is the response, or raises, in which case its error is what
    [write_entity] raises. *)
Theorem write_entity_create_commits_before_projecting spec request s :
  let h := fresh (dom (objects s)) in
  let o := persisted s (to_orm_write spec (request_entity request)) in
  objects (state (CRUDUseCase.write_entity spec request None s)) = <[h := o]> (objects s)
  ∧ objects s !! h = None
  ∧ commits (state (CRUDUseCase.write_entity spec request None s)) = S (commits s)
  ∧ result (CRUDUseCase.write_entity spec request None s) =
      match to_read spec (to_value o) with
      | inl e => inl e
      | inr dto => inr {| written_entity := dto |}
      end.
Proof.
  intros h o. unfold CRUDUseCase.write_entity.
  erewrite bind_ok; [|apply add_value_eq]. rewrite after_nil.
  erewrite bind_ok; [|apply deref_eq; cbn [objects]; apply lookup_insert_eq].
  rewrite after_nil. fold h o.
  split_and!; [| apply fresh_handle_unused | |];
    destruct (to_read spec (to_value o)) as [e|dto]; reflexivity.
Qed.


Lemma rows_values cls kw s :
  omap (λ h, to_value <$> objects s !! h) (session.rows cls kw s).*1
  = (λ ho, to_value ho.2) <$> session.rows cls kw s.
Proof.
  assert (∀ l : list (nat * instance),
            (∀ h o, (h, o) ∈ l → objects s !! h = Some o) →
            omap (λ h, to_value <$> objects s !! h) l.*1
            = (λ ho, to_value ho.2) <$> l) as Hgen.
  { induction l as [|[h o] l IH]; intros Hl; [done|].
    cbn. rewrite (Hl h o) by left. cbn. f_equal. apply IH.
    intros h' o' Hin. apply Hl. by right. }
  apply Hgen. intros h o Hin. by apply rows_elem_of in Hin as [Hlook _].
Qed.

(** When every record of the class projects to the read model,
    [read_all_entities] returns the projections of all of them, one for each
    record, and changes nothing; when one does not, it raises. *)
Theorem read_all_entities_projects_each_record spec s :
  ((∀ h o, objects s !! h = Some o → inst_cls o = orm_model spec →
           ∃ dto, to_read spec (to_value o) = inr dto) →
   ∃ dtos,
     result (CRUDUseCase.read_all_entities spec s) = inr {| entities := dtos |}
     ∧ length dtos = length (session.rows (orm_model spec) [] s)
     ∧ Forall2 (λ ho dto, to_read spec (to_value ho.2) = inr dto)
               (session.rows (orm_model spec) [] s) dtos
     ∧ state (CRUDUseCase.read_all_entities spec s) = s)
  ∧ (∀ h o e, objects s !! h = Some o → inst_cls o = orm_model spec →
              to_read spec (to_value o) = inl e →
              ∃ e', result (CRUDUseCase.read_all_entities spec s) = inl e').
Proof.
  unfold CRUDUseCase.read_all_entities, SQLAlchemySQLDbAdapter.read_all_values.
  split.
  - intros Hok.
    erewrite bind_ok; [|apply query_all_eq]. rewrite after_nil.
    erewrite bind_ok; [|reflexivity]. rewrite after_nil, rows_values.
    assert (∃ dtos,
              comprehension (to_read spec)
                ((λ ho, to_value ho.2) <$> session.rows (orm_model spec) [] s)
              = inr dtos
              ∧ Forall2 (λ ho dto, to_read spec (to_value ho.2) = inr dto)
                        (session.rows (orm_model spec) [] s) dtos)
      as (dtos & Hcomp & Hall).
    { assert (∀ ho, ho ∈ session.rows (orm_model spec) [] s →
                    ∃ dto, to_read spec (to_value ho.2) = inr dto) as Hrows.
      { intros [h o] Hin. apply rows_elem_of in Hin as [Hlook Hm].
        apply matches_spec in Hm as [Hcls _]. by apply (Hok h o). }
      induction (session.rows (orm_model spec) [] s) as [|ho l IH].
      - exists []. by split.
      - destruct (Hrows ho) as [dto Hdto]; [left|].
        destruct IH as (dtos & Hcomp & Hall).
        { intros ho' Hin. apply Hrows. by right. }
        exists (dto :: dtos). cbn. rewrite Hdto, Hcomp. by split; [|constructor]. }
    rewrite Hcomp. exists dtos. cbn. split_and!; try done.
    symmetry. by eapply Forall2_length.
  - intros h o e Hlook Hcls He.
    erewrite bind_ok; [|apply query_all_eq]. rewrite after_nil.
    erewrite bind_ok; [|reflexivity]. rewrite after_nil, rows_values.
    destruct (comprehension_raises (to_read spec)
                ((λ ho, to_value ho.2) <$> session.rows (orm_model spec) [] s)
                (to_value o) e) as [e' Hcomp]; [|done|].
    + apply list_elem_of_fmap. exists (h, o). split; [done|].
      apply rows_elem_of. split; [done|]. apply matches_spec. split; [done|].
      intros k v Hin. by apply elem_of_nil in Hin.
    + exists e'. by rewrite Hcomp.
Qed.






(** * Further properties of the pipeline *)

Lemma debug_run {A} B name (func : nat → M (list (list value)) A) self p :
  array.debug B name func self p =
    Outcome (result (func self (heap p)))
            (MkPipelines (state (func self (heap p))) (debug_active p))
            (debug_output (py_repr B) name self (heap p) (debug_active p)
                          (func self (heap p))).
Proof. destruct p. apply debug_eq. Qed.

Lemma map_items_all (foo : value → exn + value) (g : value → value) xs :
  Forall (λ x, foo x = inr (g x)) xs → array.map_items foo xs = inr (g <$> xs).
Proof.
  induction 1 as [|x xs Hx _ IH]; simpl; [done|]. by rewrite Hx, IH.
Qed.

Lemma map_items_ok foo xs ys :
  comprehension foo xs = inr ys → array.map_items foo xs = inr ys.
Proof.
  revert ys. induction xs as [|x xs IH]; intros ys; simpl; [done|].
  destruct (foo x) as [e|y]; [done|].
  destruct (comprehension foo xs) as [e|ys0]; [done|].
  intros [= <-]. by rewrite (IH ys0).
Qed.

Lemma map_items_first_failure foo pre x post ys e :
  comprehension foo pre = inr ys → foo x = inl e →
  array.map_items foo (pre ++ x :: post) =
    if decide (e = StopIteration) then inr ys else inl e.
Proof.
  intros Hpre Hx. revert ys Hpre.
  induction pre as [|x0 pre IH]; intros ys Hpre; simpl in *.
  - injection Hpre as <-. rewrite Hx. case_decide as He; [by subst e|].
    by destruct e.
  - destruct (foo x0) as [e0|y0]; [done|].
    destruct (comprehension foo pre) as [e0|ys0]; [done|].
    injection Hpre as <-. rewrite (IH ys0) by done. by case_decide.
Qed.

Lemma func_map_eq foo self h xs :
  h !! self = Some xs →
  array.func.map foo self h =
    match array.map_items foo xs with
    | inl e => Outcome (inl e) h []
    | inr ys => Outcome (inr self) (<[self := ys]> h) []
    end.
Proof.
  intros Hself. unfold array.func.map.
  erewrite bind_ok; [|apply items_eq]. rewrite after_nil, Hself.
  cbn [default from_option id].
  by destruct (array.map_items foo xs).
Qed.

(** [map] replaces the items by the results when the function returns for
    every item, as many and position by position.  At the first item for
    which the function raises, [map] raises the same and the items stay as
    they were; unless what is raised is [StopIteration], which ends the
    [map]: the call returns and the items become the results obtained before
    that item. *)
Theorem map_stops_at_the_first_failure B foo self p xs :
  heap p !! self = Some xs →
  (∀ ys, comprehension foo xs = inr ys →
         result (array.map B foo self p) = inr self
         ∧ heap (state (array.map B foo self p)) = <[self := ys]> (heap p)
         ∧ length ys = length xs
         ∧ ∀ i x, xs !! i = Some x → ∃ y, ys !! i = Some y ∧ foo x = inr y)
  ∧ (∀ pre x post ys e,
       xs = pre ++ x :: post → comprehension foo pre = inr ys → foo x = inl e →
       if decide (e = StopIteration)
       then result (array.map B foo self p) = inr self
            ∧ heap (state (array.map B foo self p)) = <[self := ys]> (heap p)
       else result (array.map B foo self p) = inl e
            ∧ heap (state (array.map B foo self p)) = heap p).
Proof.
  intros Hself. unfold array.map. rewrite debug_run.
  rewrite (func_map_eq foo self (heap p) xs Hself). cbn [result state heap]. split.
  - intros ys Hcomp. rewrite (map_items_ok foo xs ys Hcomp). cbn [result state heap].
    split_and!; [done|done|by eapply comprehension_length|].
    clear Hself. revert ys Hcomp.
    induction xs as [|x0 xs IH]; intros ys Hcomp i x Hi; [done|].
    simpl in Hcomp. destruct (foo x0) as [|y0] eqn:Hx0; [done|].
    destruct (comprehension foo xs) as [|ys0]; [done|]. injection Hcomp as <-.
    destruct i as [|i]; simpl in *.
    + injection Hi as <-. by exists y0.
    + by eapply IH.
  - intros pre x post ys e -> Hpre Hx.
    rewrite (map_items_first_failure foo pre x post ys e Hpre Hx).
    by case_decide.
Qed.

Lemma map_stops_at_the_first_failure_witness :
  heap three_numbers !! 0%nat = Some [VInt 3; VInt 1; VInt 2]
  ∧ result (array.map example.simple_builtins
              (λ v, match v with VInt 1 => inl StopIteration | _ => inr (VList [v]) end)
              0%nat three_numbers) = inr 0%nat
  ∧ heap (state (array.map example.simple_builtins
                   (λ v, match v with
                         | VInt 1 => inl StopIteration
                         | _ => inr (VList [v])
                         end) 0%nat three_numbers))
    = <[0%nat := [VList [VInt 3]]]> (heap three_numbers).
Proof.
  assert (heap three_numbers !! 0%nat = Some [VInt 3; VInt 1; VInt 2]) as Hself
    by reflexivity.
  split; [exact Hself|].
  exact (proj2 (map_stops_at_the_first_failure example.simple_builtins
                  (λ v, match v with
                        | VInt 1 => inl StopIteration
                        | _ => inr (VList [v])
                        end)
                  0%nat three_numbers [VInt 3; VInt 1; VInt 2] Hself)
           [VInt 3] (VInt 1) [VInt 2] [VList [VInt 3]] StopIteration
           eq_refl eq_refl eq_refl).
Defined.

(** Two [map]s in a row, with functions that do not raise, are one [map]
    with the composed function. *)
Theorem map_map_is_map_of_composition B (f g : value → value) self p xs :
  heap p !! self = Some xs →
  result ((let! a := array.map B (λ x, inr (f x)) self in
           array.map B (λ x, inr (g x)) a) p) = inr self
  ∧ heap (state ((let! a := array.map B (λ x, inr (f x)) self in
                  array.map B (λ x, inr (g x)) a) p))
    = heap (state (array.map B (λ x, inr (g (f x))) self p))
  ∧ heap (state (array.map B (λ x, inr (g (f x))) self p))
    = <[self := (g ∘ f) <$> xs]> (heap p).
Proof.
  intros Hself.
  assert (self < length (heap p))%nat as Hlt by by eapply lookup_lt_Some.
  unfold array.map.
  erewrite bind_ok; [|rewrite debug_run, (func_map_eq _ self (heap p) xs Hself);
                      rewrite (map_items_all _ f) by (by apply Forall_true);
                      reflexivity].
  rewrite !debug_run. cbn [after result state heap debug_active].
  rewrite (func_map_eq _ self (<[self := f <$> xs]> (heap p)) (f <$> xs))
    by by apply list_lookup_insert_eq.
  rewrite (func_map_eq _ self (heap p) xs Hself).
  rewrite (map_items_all _ g) by (by apply Forall_true).
  rewrite (map_items_all _ (g ∘ f)) by (by apply Forall_true).
  cbn [result state heap]. split_and!; [done| |done].
  by rewrite list_insert_insert_eq, list_fmap_compose.
Qed.

Lemma map_map_is_map_of_composition_witness :
  heap three_numbers !! 0%nat = Some [VInt 3; VInt 1; VInt 2]
  ∧ heap (state (array.map example.simple_builtins
                   (λ x, inr ((λ v, VList [v]) ((λ v, VTuple [v; v]) x)))
                   0%nat three_numbers))
    = <[0%nat := ((λ v, VList [v]) ∘ (λ v, VTuple [v; v]))
                 <$> [VInt 3; VInt 1; VInt 2]]> (heap three_numbers).
Proof.
  assert (heap three_numbers !! 0%nat = Some [VInt 3; VInt 1; VInt 2]) as Hself
    by reflexivity.
  split; [exact Hself|].
  exact (proj2 (proj2 (map_map_is_map_of_composition example.simple_builtins
                         (λ v, VTuple [v; v]) (λ v, VList [v]) 0%nat three_numbers
                         [VInt 3; VInt 1; VInt 2] Hself))).
Defined.

Lemma filter_items_total (pred : value → bool) foo xs :
  (∀ x, x ∈ xs → foo x = inr (pred x)) →
  array.filter_items foo xs = inr (filter (λ x, pred x = true) xs).
Proof.
  induction xs as [|x xs IH]; intros Hfoo; [done|].
  simpl. rewrite (Hfoo x) by left. rewrite IH by (intros y Hy; apply Hfoo; by right).
  rewrite filter_cons. destruct (pred x) eqn:Hp.
  - by rewrite decide_True.
  - by rewrite decide_False.
Qed.

(** With a predicate that does not raise, [filter] keeps the items that
    satisfy it, each as often as it occurs and in the order of the items,
    and no other. *)
Theorem filter_keeps_the_satisfying_items B (pred : value → bool) foo self p xs :
  heap p !! self = Some xs →
  (∀ x, x ∈ xs → foo x = inr (pred x)) →
  result (array.filter B foo self p) = inr self
  ∧ heap (state (array.filter B foo self p))
    = <[self := filter (λ x, pred x = true) xs]> (heap p).
Proof.
  intros Hself Hfoo. unfold array.filter. rewrite debug_run.
  unfold array.func.filter.
  erewrite bind_ok; [|apply items_eq]. rewrite after_nil, Hself.
  cbn [default from_option id].
  by rewrite (filter_items_total pred foo xs Hfoo).
Qed.

Lemma filter_keeps_the_satisfying_items_witness :
  let p := {| heap := [[VInt 7; VInt 1; VInt 7]]; debug_active := true |} in
  heap p !! 0%nat = Some [VInt 7; VInt 1; VInt 7]
  ∧ (∀ x, x ∈ [VInt 7; VInt 1; VInt 7] →
          (λ v, inr (bool_decide (v ≠ VInt 1))) x
          = @inr exn bool (bool_decide (x ≠ VInt 1)))
  ∧ heap (state (array.filter example.simple_builtins
                   (λ v, inr (bool_decide (v ≠ VInt 1))) 0%nat p))
    = [[VInt 7; VInt 7]].
Proof.
  intros p.
  assert (heap p !! 0%nat = Some [VInt 7; VInt 1; VInt 7]) as Hself by reflexivity.
  assert (∀ x, x ∈ [VInt 7; VInt 1; VInt 7] →
               (λ v, inr (bool_decide (v ≠ VInt 1))) x
               = @inr exn bool (bool_decide (x ≠ VInt 1))) as Hfoo by reflexivity.
  split; [exact Hself|]. split; [exact Hfoo|].
  rewrite (proj2 (filter_keeps_the_satisfying_items example.simple_builtins
                    (λ v, bool_decide (v ≠ VInt 1)) _ 0%nat p
                    [VInt 7; VInt 1; VInt 7] Hself Hfoo)).
  reflexivity.
Defined.

Lemma as_ssize_t_in_range i :
  - ssize_t_max - 1 ≤ i ≤ ssize_t_max → as_ssize_t i = inr i.
Proof.
  intros [Hlo Hhi]. unfold as_ssize_t.
  by rewrite (proj2 (Z.leb_le _ _) Hlo), (proj2 (Z.leb_le _ _) Hhi).
Qed.

Lemma as_ssize_t_out_of_range i :
  i < - ssize_t_max - 1 ∨ ssize_t_max < i →
  as_ssize_t i = inl (OverflowError "Python int too large to convert to C ssize_t").
Proof.
  intros Hout. unfold as_ssize_t.
  destruct (- ssize_t_max - 1 <=? i) eqn:Hlo; [|done].
  destruct (i <=? ssize_t_max) eqn:Hhi; [|done].
  apply Z.leb_le in Hlo, Hhi. lia.
Qed.

Lemma func_insert_eq index item self h xs :
  h !! self = Some xs →
  array.func.insert index item self h =
    match py_insert index item xs with
    | inl e => Outcome (inl e) h []
    | inr ys => Outcome (inr self) (<[self := ys]> h) []
    end.
Proof.
  intros Hself. unfold array.func.insert.
  erewrite bind_ok; [|apply items_eq]. rewrite after_nil, Hself.
  cbn [default from_option id].
  by destruct (py_insert index item xs).
Qed.

Lemma func_append_eq item self h xs :
  h !! self = Some xs →
  array.func.append item self h = Outcome (inr self) (<[self := xs ++ [item]]> h) [].
Proof.
  intros Hself. unfold array.func.append.
  erewrite bind_ok; [|apply items_eq]. rewrite after_nil, Hself. reflexivity.
Qed.

(** With an index that fits a C [ssize_t], [insert] raises nothing and adds
    one item: at the given position when it is within the list, counted from
    the end when it is negative, and at the nearer end when it is out of
    range, so that an index at or beyond the length does what [append]
    does.  An index that does not fit raises [OverflowError] and the items
    stay as they were. *)
Theorem insert_clamps_the_index B index item self p xs :
  heap p !! self = Some xs →
  (- ssize_t_max - 1 ≤ index ≤ ssize_t_max →
   result (array.insert B index item self p) = inr self
   ∧ ∃ ys,
       heap (state (array.insert B index item self p)) = <[self := ys]> (heap p)
       ∧ length ys = S (length xs)
       ∧ (0 ≤ index ≤ Z.of_nat (length xs) →
          ys = take (Z.to_nat index) xs ++ item :: drop (Z.to_nat index) xs)
       ∧ (- Z.of_nat (length xs) ≤ index < 0 →
          ys = take (Z.to_nat (Z.of_nat (length xs) + index)) xs
               ++ item :: drop (Z.to_nat (Z.of_nat (length xs) + index)) xs)
       ∧ (index ≤ - Z.of_nat (length xs) → ys = item :: xs)
       ∧ (Z.of_nat (length xs) ≤ index →
          ys = xs ++ [item]
          ∧ heap (state (array.insert B index item self p))
            = heap (state (array.append B item self p))))
  ∧ (index < - ssize_t_max - 1 ∨ ssize_t_max < index →
     result (array.insert B index item self p)
       = inl (OverflowError "Python int too large to convert to C ssize_t")
     ∧ heap (state (array.insert B index item self p)) = heap p).
Proof.
  intros Hself. unfold array.insert, array.append. rewrite !debug_run.
  rewrite (func_insert_eq index item self (heap p) xs Hself).
  rewrite (func_append_eq item self (heap p) xs Hself).
  unfold py_insert. split.
  - intros Hrange. rewrite (as_ssize_t_in_range index Hrange).
    cbn [result state heap]. split; [done|].
    eexists. split; [reflexivity|]. split_and!.
    + rewrite length_app, length_take. cbn [length]. rewrite length_drop.
      destruct (index <? 0) eqn:Hneg; lia.
    + intros [Hlo Hhi]. rewrite (proj2 (Z.ltb_ge index 0)) by lia.
      by rewrite Z.min_l by lia.
    + intros [Hlo Hhi]. rewrite (proj2 (Z.ltb_lt index 0)) by lia.
      rewrite Z.max_r by lia. by rewrite (Z.add_comm index).
    + intros Hlow. destruct (index <? 0) eqn:Hneg.
      * rewrite Z.max_l by lia. reflexivity.
      * apply Z.ltb_ge in Hneg.
        assert (length xs = 0%nat) as Hlen by lia.
        apply nil_length_inv in Hlen as ->. by rewrite Z.min_r by (simpl; lia).
    + intros Hhigh. rewrite (proj2 (Z.ltb_ge index 0)) by lia.
      rewrite Z.min_r by lia. rewrite Nat2Z.id.
      by rewrite firstn_all, drop_all.
  - intros Hout. by rewrite (as_ssize_t_out_of_range index Hout).
Qed.

Lemma insert_clamps_the_index_witness :
  heap three_numbers !! 0%nat = Some [VInt 3; VInt 1; VInt 2]
  ∧ - ssize_t_max - 1 ≤ 7 ≤ ssize_t_max
  ∧ heap (state (array.insert example.simple_builtins (-1) (VInt 9) 0%nat three_numbers))
    = [[VInt 3; VInt 1; VInt 9; VInt 2]]
  ∧ heap (state (array.insert example.simple_builtins 7 (VInt 9) 0%nat three_numbers))
    = heap (state (array.append example.simple_builtins (VInt 9) 0%nat three_numbers)).
Proof.
  assert (heap three_numbers !! 0%nat = Some [VInt 3; VInt 1; VInt 2]) as Hself
    by reflexivity.
  assert (- ssize_t_max - 1 ≤ 7 ≤ ssize_t_max) as Hrange by (vm_compute; split; discriminate).
  split; [exact Hself|]. split; [exact Hrange|]. split; [vm_compute; reflexivity|].
  destruct (proj1 (insert_clamps_the_index example.simple_builtins 7 (VInt 9) 0%nat
                     three_numbers [VInt 3; VInt 1; VInt 2] Hself) Hrange)
    as (_ & ys & _ & _ & _ & _ & _ & Hhigh).
  apply Hhigh. simpl. lia.
Defined.

Lemma func_pop_eq index self h xs :
  h !! self = Some xs →
  array.func.pop index self h =
    match array.pop_item index xs with
    | inl e => Outcome (inl e) h []
    | inr (x, _) => Outcome (inr self) (<[self := [x]]> h) []
    end.
Proof.
  intros Hself. unfold array.func.pop.
  erewrite bind_ok; [|apply items_eq]. rewrite after_nil, Hself.
  cbn [default from_option id].
  by destruct (array.pop_item index xs) as [e|[x rest]].
Qed.

Lemma py_index_last len : (0 < len)%nat → py_index len (-1) = Some (len - 1)%nat.
Proof.
  intros Hlen. unfold py_index. cbn [Z.ltb Z.compare].
  rewrite (proj2 (andb_true_iff _ _)).
  - f_equal. lia.
  - split; [apply Z.leb_le | apply Z.ltb_lt]; lia.
Qed.

Lemma as_ssize_t_minus_one : as_ssize_t (-1) = inr (-1).
Proof. reflexivity. Qed.

(** [pop] keeps only the item it takes out: the last one by default.  With
    an index that fits a C [ssize_t], on an empty pipeline or with an index
    outside the list it raises [IndexError]; with an index that does not
    fit it raises [OverflowError]; in both cases the items stay as they
    were. *)
Theorem pop_keeps_only_the_popped_item B index self p xs :
  heap p !! self = Some xs →
  (∀ x, last xs = Some x →
        result (array.pop B (-1) self p) = inr self
        ∧ heap (state (array.pop B (-1) self p)) = <[self := [x]]> (heap p))
  ∧ (- ssize_t_max - 1 ≤ index ≤ ssize_t_max →
     (∀ i x, py_index (length xs) index = Some i → xs !! i = Some x →
             result (array.pop B index self p) = inr self
             ∧ heap (state (array.pop B index self p)) = <[self := [x]]> (heap p))
     ∧ (xs = [] →
        result (array.pop B index self p) = inl (IndexError "pop from empty list")
        ∧ heap (state (array.pop B index self p)) = heap p)
     ∧ (xs ≠ [] → py_index (length xs) index = None →
        result (array.pop B index self p)
          = inl (IndexError "pop index out of range")
        ∧ heap (state (array.pop B index self p)) = heap p))
  ∧ (index < - ssize_t_max - 1 ∨ ssize_t_max < index →
     result (array.pop B index self p)
       = inl (OverflowError "Python int too large to convert to C ssize_t")
     ∧ heap (state (array.pop B index self p)) = heap p).
Proof.
  intros Hself. unfold array.pop. rewrite !debug_run.
  rewrite !(func_pop_eq _ self (heap p) xs Hself).
  assert (∀ idx i x, as_ssize_t idx = inr idx →
                     py_index (length xs) idx = Some i → xs !! i = Some x →
                     ∃ rest, array.pop_item idx xs = inr (x, rest)) as Hpop.
  { intros idx i x Hfit Hidx Hx. unfold array.pop_item. rewrite Hfit.
    destruct xs as [|x0 xs0]; [done|]. rewrite Hidx, Hx. by eexists. }
  split_and!.
  - intros x Hlast.
    assert (0 < length xs)%nat as Hlen.
    { destruct xs; [done|]. simpl. lia. }
    destruct (Hpop (-1) (length xs - 1)%nat x) as [rest ->].
    + apply as_ssize_t_minus_one.
    + by apply py_index_last.
    + rewrite last_lookup in Hlast.
      by replace (length xs - 1)%nat with (pred (length xs)) by lia.
    + done.
  - intros Hrange. pose proof (as_ssize_t_in_range index Hrange) as Hfit.
    split_and!.
    + intros i x Hidx Hx. by destruct (Hpop index i x Hfit Hidx Hx) as [rest ->].
    + intros ->. unfold array.pop_item. by rewrite Hfit.
    + intros Hne Hidx. unfold array.pop_item. rewrite Hfit.
      destruct xs as [|x0 xs0]; [done|]. by rewrite Hidx.
  - intros Hout. unfold array.pop_item. by rewrite (as_ssize_t_out_of_range index Hout).
Qed.

Lemma pop_keeps_only_the_popped_item_witness :
  heap three_numbers !! 0%nat = Some [VInt 3; VInt 1; VInt 2]
  ∧ last [VInt 3; VInt 1; VInt 2] = Some (VInt 2)
  ∧ heap (state (array.pop example.simple_builtins (-1) 0%nat three_numbers))
    = <[0%nat := [VInt 2]]> (heap three_numbers).
Proof.
  assert (heap three_numbers !! 0%nat = Some [VInt 3; VInt 1; VInt 2]) as Hself
    by reflexivity.
  assert (last [VInt 3; VInt 1; VInt 2] = Some (VInt 2)) as Hlast by reflexivity.
  split; [exact Hself|]. split; [exact Hlast|].
  exact (proj2 (proj1 (pop_keeps_only_the_popped_item example.simple_builtins 0 0%nat
                         three_numbers [VInt 3; VInt 1; VInt 2] Hself)
                  (VInt 2) Hlast)).
Defined.

Lemma py_remove_absent eq x xs :
  (∀ y, y ∈ xs → eq y x = false) → py_remove eq x xs = None.
Proof.
  induction xs as [|y xs IH]; intros Hx; [done|]. simpl.
  rewrite (Hx y) by left. rewrite IH; [done|]. intros z Hz. apply Hx. by right.
Qed.

Lemma py_remove_first eq x y l1 l2 :
  (∀ z, z ∈ l1 → eq z x = false) → eq y x = true →
  py_remove eq x (l1 ++ y :: l2) = Some (l1 ++ l2).
Proof.
  induction l1 as [|z l1 IH]; intros Hl1 Hy; simpl.
  - by rewrite Hy.
  - rewrite (Hl1 z) by left. rewrite IH; [done| |done].
    intros z' Hz'. apply Hl1. by right.
Qed.

(** [remove] takes out the first item that is [==] to the given one, which
    need not be the same value ([True == 1]), and leaves the others in
    place; when no item is [==] to it, it raises [ValueError] and the items
    stay as they were. *)
Theorem remove_takes_out_the_first_occurrence B item self p xs :
  heap p !! self = Some xs →
  (∀ l1 y l2, xs = l1 ++ y :: l2 →
              (∀ z, z ∈ l1 → py_eq (py_object_eq B) z item = false) →
              py_eq (py_object_eq B) y item = true →
              result (array.remove B item self p) = inr self
              ∧ heap (state (array.remove B item self p))
                = <[self := l1 ++ l2]> (heap p))
  ∧ ((∀ y, y ∈ xs → py_eq (py_object_eq B) y item = false) →
     result (array.remove B item self p)
       = inl (ValueError "list.remove(x): x not in list")
     ∧ heap (state (array.remove B item self p)) = heap p).
Proof.
  intros Hself. unfold array.remove. rewrite debug_run. unfold array.func.remove.
  erewrite bind_ok; [|apply items_eq]. rewrite after_nil, Hself.
  cbn [default from_option id]. split.
  - intros l1 y l2 -> Hl1 Hy. by rewrite (py_remove_first _ _ _ _ _ Hl1 Hy).
  - intros Habsent. by rewrite py_remove_absent.
Qed.

Lemma remove_takes_out_the_first_occurrence_witness :
  let p := {| heap := [[VInt 0; VBool true; VInt 1]]; debug_active := true |} in
  heap p !! 0%nat = Some [VInt 0; VBool true; VInt 1]
  ∧ [VInt 0; VBool true; VInt 1] = [VInt 0] ++ VBool true :: [VInt 1]
  ∧ (∀ z, z ∈ [VInt 0] →
          py_eq (py_object_eq example.simple_builtins) z (VInt 1) = false)
  ∧ py_eq (py_object_eq example.simple_builtins) (VBool true) (VInt 1) = true
  ∧ result (array.remove example.simple_builtins (VInt 1) 0%nat p) = inr 0%nat
  ∧ heap (state (array.remove example.simple_builtins (VInt 1) 0%nat p))
    = <[0%nat := [VInt 0] ++ [VInt 1]]> (heap p).
Proof.
  intros p.
  assert (heap p !! 0%nat = Some [VInt 0; VBool true; VInt 1]) as Hself by reflexivity.
  assert (∀ z, z ∈ [VInt 0] →
               py_eq (py_object_eq example.simple_builtins) z (VInt 1) = false) as Hl1.
  { intros z Hz. apply list_elem_of_singleton in Hz as ->. reflexivity. }
  split; [exact Hself|]. split; [reflexivity|]. split; [exact Hl1|].
  split; [reflexivity|].
  exact (proj1 (remove_takes_out_the_first_occurrence example.simple_builtins (VInt 1)
                  0%nat p [VInt 0; VBool true; VInt 1] Hself)
           [VInt 0] (VBool true) [VInt 1] eq_refl Hl1 eq_refl).
Defined.

(** [build] changes nothing.  With an index it returns the item at that
    position, a negative index counting from the end, so that [i] and
    [i - len] designate the same item; outside the list it raises
    [IndexError]. *)
Theorem build_index_counts_from_either_end i self p xs :
  heap p !! self = Some xs →
  state (array.build (Some i) self p) = p
  ∧ (0 ≤ i < Z.of_nat (length xs) →
     ∃ x, xs !! Z.to_nat i = Some x
          ∧ result (array.build (Some i) self p) = inr x
          ∧ result (array.build (Some (i - Z.of_nat (length xs))) self p) = inr x)
  ∧ (Z.of_nat (length xs) ≤ i ∨ i < - Z.of_nat (length xs) →
     result (array.build (Some i) self p) = inl (IndexError "list index out of range")).
Proof.
  intros Hself.
  assert (∀ j, array.build (Some j) self p =
               match py_index (length xs) j ≫= (λ n, xs !! n) with
               | Some x => Outcome (inr x) p []
               | None => Outcome (inl (IndexError "list index out of range")) p []
               end) as Hbuild.
  { intros j. unfold array.build, array.on_heap, array.func.build.
    erewrite bind_ok; [|apply items_eq]. rewrite after_nil, Hself.
    cbn [default from_option id]. destruct p as [h b]. cbn [heap debug_active] in *.
    by destruct (py_index (length xs) j ≫= (λ n, xs !! n)). }
  rewrite !Hbuild. split_and!.
  - by destruct (py_index (length xs) i ≫= (λ n, xs !! n)).
  - intros [Hlo Hhi].
    destruct (lookup_lt_is_Some_2 xs (Z.to_nat i)) as [x Hx]; [lia|].
    exists x. split; [done|].
    assert (py_index (length xs) i = Some (Z.to_nat i)) as ->.
    { unfold py_index. rewrite (proj2 (Z.ltb_ge i 0)) by lia.
      rewrite (proj2 (Z.leb_le 0 i)), (proj2 (Z.ltb_lt i _)) by lia. done. }
    assert (py_index (length xs) (i - Z.of_nat (length xs)) = Some (Z.to_nat i)) as ->.
    { unfold py_index. rewrite (proj2 (Z.ltb_lt (i - Z.of_nat (length xs)) 0)) by lia.
      replace (i - Z.of_nat (length xs) + Z.of_nat (length xs)) with i by lia.
      rewrite (proj2 (Z.leb_le 0 i)), (proj2 (Z.ltb_lt i _)) by lia. done. }
    cbn. by rewrite Hx.
  - intros Hout.
    assert (py_index (length xs) i = None) as ->; [|done].
    unfold py_index. destruct (i <? 0) eqn:Hneg.
    + apply Z.ltb_lt in Hneg. by rewrite (proj2 (Z.leb_gt 0 _)) by lia.
    + apply Z.ltb_ge in Hneg. rewrite (proj2 (Z.ltb_ge i _)) by lia.
      by rewrite andb_false_r.
Qed.

Lemma build_index_counts_from_either_end_witness :
  heap three_numbers !! 0%nat = Some [VInt 3; VInt 1; VInt 2]
  ∧ 0 ≤ 2 < Z.of_nat (length [VInt 3; VInt 1; VInt 2])
  ∧ ∃ x, [VInt 3; VInt 1; VInt 2] !! Z.to_nat 2 = Some x
         ∧ result (array.build (Some 2) 0%nat three_numbers) = inr x
         ∧ result (array.build
                     (Some (2 - Z.of_nat (length [VInt 3; VInt 1; VInt 2])))
                     0%nat three_numbers) = inr x.
Proof.
  assert (heap three_numbers !! 0%nat = Some [VInt 3; VInt 1; VInt 2]) as Hself
    by reflexivity.
  assert (0 ≤ 2 < Z.of_nat (length [VInt 3; VInt 1; VInt 2])) as Hrange
    by (simpl; lia).
  split; [exact Hself|]. split; [exact Hrange|].
  exact (proj1 (proj2 (build_index_counts_from_either_end 2 0%nat three_numbers
                         [VInt 3; VInt 1; VInt 2] Hself))
           Hrange).
Defined.

Lemma unpack_of_flat l :
  Forall (λ x, is_list x = false) l → array.unpack (VList l) = l.
Proof.
  induction 1 as [|x l Hx _ IH]; [done|].
  rewrite unpack_cons, IH. by rewrite (unpack_leaf x Hx).
Qed.

Lemma func_flatten_eq self h xs :
  h !! self = Some xs →
  array.func.flatten self h =
    Outcome (inr self) (<[self := array.unpack (VList xs)]> h) [].
Proof.
  intros Hself. unfold array.func.flatten.
  erewrite bind_ok; [|apply items_eq]. rewrite after_nil, Hself. reflexivity.
Qed.

(** [flatten] a second time changes nothing, and on items none of which is a
    list it changes nothing the first time. *)
Theorem flatten_twice_is_flatten B self p xs :
  heap p !! self = Some xs →
  heap (state ((let! a := array.flatten B self in array.flatten B a) p))
    = heap (state (array.flatten B self p))
  ∧ (Forall (λ x, is_list x = false) xs →
     heap (state (array.flatten B self p)) = heap p).
Proof.
  intros Hself.
  assert (self < length (heap p))%nat as Hlt by by eapply lookup_lt_Some.
  unfold array.flatten.
  erewrite bind_ok;
    [|rewrite debug_run, (func_flatten_eq self (heap p) xs Hself); reflexivity].
  rewrite !debug_run. cbn [after result state heap debug_active].
  rewrite (func_flatten_eq self (<[self := array.unpack (VList xs)]> (heap p))
             (array.unpack (VList xs))) by by apply list_lookup_insert_eq.
  rewrite (func_flatten_eq self (heap p) xs Hself). cbn [state]. split.
  - rewrite list_insert_insert_eq. f_equal. apply unpack_of_flat, unpack_flat.
  - intros Hflat. rewrite unpack_of_flat by done. by apply list_insert_id.
Qed.

Lemma flatten_twice_is_flatten_witness :
  let p := {| heap := [[VInt 1; VList [VInt 2; VList [VInt 3]]]];
              debug_active := false |} in
  heap p !! 0%nat = Some [VInt 1; VList [VInt 2; VList [VInt 3]]]
  ∧ heap (state ((let! a := array.flatten example.simple_builtins 0%nat in
                  array.flatten example.simple_builtins a) p))
    = heap (state (array.flatten example.simple_builtins 0%nat p)).
Proof.
  intros p.
  assert (heap p !! 0%nat = Some [VInt 1; VList [VInt 2; VList [VInt 3]]]) as Hself
    by reflexivity.
  split; [exact Hself|].
  exact (proj1 (flatten_twice_is_flatten example.simple_builtins 0%nat p
                  [VInt 1; VList [VInt 2; VList [VInt 3]]] Hself)).
Defined.

Lemma validate_loop_state schema xs acc h :
  state (array.validate_loop schema xs acc h) = h.
Proof.
  revert acc. induction xs as [|item xs IH]; intros acc; [done|].
  cbn [array.validate_loop].
  destruct (array.validated_item schema item) as [e|v]; [|apply IH].
  destruct e; try done.
  erewrite bind_ok; [|reflexivity]. unfold after. cbn [state]. apply IH.
Qed.

(** [validate] leaves the pipeline it is called on as it was, whether it
    returns or raises: when it returns, the result is a pipeline that did
    not exist before; when it raises, no pipeline was created. *)
Theorem validate_leaves_the_pipeline_alone B schema self p xs :
  heap p !! self = Some xs →
  heap (state (array.validate B schema self p)) !! self = Some xs
  ∧ match result (array.validate B schema self p) with
    | inr a =>
        a = length (heap p)
        ∧ ∃ ys, heap (state (array.validate B schema self p)) = heap p ++ [ys]
    | inl _ => heap (state (array.validate B schema self p)) = heap p
    end.
Proof.
  intros Hself. unfold array.validate. rewrite debug_run.
  cbn [result state heap]. unfold array.func.validate.
  erewrite bind_ok; [|apply items_eq]. rewrite after_nil, Hself.
  cbn [default from_option id].
  pose proof (validate_loop_state schema xs [] (heap p)) as Hstate.
  destruct (array.validate_loop schema xs [] (heap p)) as [[e|v] h' out] eqn:Hloop;
    cbn [state] in Hstate; subst h'.
  - erewrite bind_err; [|exact Hloop]. by cbn.
  - erewrite bind_ok; [|exact Hloop]. rewrite init_eq. cbn. split.
    + by apply lookup_app_l_Some.
    + split; [done|]. by eexists.
Qed.

Lemma validate_leaves_the_pipeline_alone_witness :
  let p := {| heap := [[VDict [("a", VInt 1)]; VInt 5]]; debug_active := true |} in
  heap p !! 0%nat = Some [VDict [("a", VInt 1)]; VInt 5]
  ∧ heap (state (array.validate example.simple_builtins example.SchemaRequiringA
                   0%nat p)) !! 0%nat
    = Some [VDict [("a", VInt 1)]; VInt 5].
Proof.
  intros p.
  assert (heap p !! 0%nat = Some [VDict [("a", VInt 1)]; VInt 5]) as Hself
    by reflexivity.
  split; [exact Hself|].
  exact (proj1 (validate_leaves_the_pipeline_alone example.simple_builtins
                  example.SchemaRequiringA 0%nat p
                  [VDict [("a", VInt 1)]; VInt 5] Hself)).
Defined.

Lemma validated_item_foreign schema x :
  is_dict x = false → schema_isinstance schema x = false →
  ∃ msg, array.validated_item schema x = inl (TypeError msg).
Proof.
  intros Hd Hi. destruct x; try discriminate Hd; simpl; rewrite Hi; by eexists.
Qed.

Lemma validate_loop_foreign schema xs x :
  x ∈ xs → is_dict x = false → schema_isinstance schema x = false →
  ∀ acc h, ∃ e out,
    array.validate_loop schema xs acc h = Outcome (inl e) h out
    ∧ ∀ msg, e ≠ ValidationError msg.
Proof.
  intros Hin Hd Hi. destruct (validated_item_foreign schema x Hd Hi) as [m Hx].
  induction xs as [|item xs IH]; intros acc h; [by apply elem_of_nil in Hin|].
  cbn [array.validate_loop].
  destruct (array.validated_item schema item) as [e|v] eqn:Hitem.
  - destruct e;
      try (eexists _, []; split; [reflexivity | intros msg' Heq; discriminate Heq]).
    assert (x ∈ xs) as Hin'.
    { apply elem_of_cons in Hin as [->|Hin]; [|done]. congruence. }
    destruct (IH Hin' acc h) as (e & out & Hloop & Hne).
    erewrite bind_ok; [|reflexivity]. rewrite Hloop. by eexists _, _.
  - assert (x ∈ xs) as Hin'.
    { apply elem_of_cons in Hin as [->|Hin]; [|done]. congruence. }
    apply (IH Hin').
Qed.

(** When some item is neither a dict nor an instance of the schema,
    [validate] raises, with an error that is not a validation error, and
    creates no pipeline. *)
Theorem validate_raises_on_a_foreign_item B schema self p xs x :
  heap p !! self = Some xs →
  x ∈ xs → is_dict x = false → schema_isinstance schema x = false →
  ∃ e, result (array.validate B schema self p) = inl e
       ∧ (∀ msg, e ≠ ValidationError msg)
       ∧ heap (state (array.validate B schema self p)) = heap p.
Proof.
  intros Hself Hin Hd Hi. unfold array.validate. rewrite debug_run.
  cbn [result state heap]. unfold array.func.validate.
  erewrite bind_ok; [|apply items_eq]. rewrite after_nil, Hself.
  cbn [default from_option id].
  destruct (validate_loop_foreign schema xs x Hin Hd Hi [] (heap p))
    as (e & out & Hloop & Hne).
  erewrite bind_err; [|exact Hloop]. by exists e.
Qed.

Lemma validate_raises_on_a_foreign_item_witness :
  let p := {| heap := [[VDict [("bad", VStr "x")]; VInt 5]]; debug_active := false |} in
  heap p !! 0%nat = Some [VDict [("bad", VStr "x")]; VInt 5]
  ∧ VInt 5 ∈ [VDict [("bad", VStr "x")]; VInt 5]
  ∧ is_dict (VInt 5) = false
  ∧ schema_isinstance example.SchemaRequiringA (VInt 5) = false
  ∧ ∃ e, result (array.validate example.simple_builtins example.SchemaRequiringA
                   0%nat p) = inl e
         ∧ (∀ msg, e ≠ ValidationError msg)
         ∧ heap (state (array.validate example.simple_builtins
                          example.SchemaRequiringA 0%nat p)) = heap p.
Proof.
  intros p.
  assert (heap p !! 0%nat = Some [VDict [("bad", VStr "x")]; VInt 5]) as Hself
    by reflexivity.
  assert (VInt 5 ∈ [VDict [("bad", VStr "x")]; VInt 5]) as Hin by (right; left).
  split; [exact Hself|]. split; [exact Hin|]. split; [reflexivity|].
  split; [reflexivity|].
  exact (validate_raises_on_a_foreign_item example.simple_builtins
           example.SchemaRequiringA 0%nat p [VDict [("bad", VStr "x")]; VInt 5]
           (VInt 5) Hself Hin eq_refl eq_refl).
Defined.

Lemma func_extend_eq iterable self h xs :
  h !! self = Some xs →
  array.func.extend iterable self h =
    Outcome (inr self) (<[self := xs ++ iterable]> h) [].
Proof.
  intros Hself. unfold array.func.extend.
  erewrite bind_ok; [|apply items_eq]. rewrite after_nil, Hself. reflexivity.
Qed.

(** [extend] with one list and then with another is [extend] with the two
    lists joined, and [append] is [extend] with a one-element list. *)
Theorem extend_extend_is_extend_of_concatenation B l1 l2 item self p xs :
  heap p !! self = Some xs →
  heap (state ((let! a := array.extend B l1 self in array.extend B l2 a) p))
    = heap (state (array.extend B (l1 ++ l2) self p))
  ∧ heap (state (array.extend B (l1 ++ l2) self p)) = <[self := xs ++ l1 ++ l2]> (heap p)
  ∧ heap (state (array.append B item self p))
    = heap (state (array.extend B [item] self p)).
Proof.
  intros Hself.
  assert (self < length (heap p))%nat as Hlt by by eapply lookup_lt_Some.
  unfold array.extend, array.append.
  erewrite bind_ok;
    [|rewrite debug_run, (func_extend_eq l1 self (heap p) xs Hself); reflexivity].
  rewrite !debug_run. cbn [after result state heap debug_active].
  rewrite (func_extend_eq l2 self (<[self := xs ++ l1]> (heap p)) (xs ++ l1))
    by by apply list_lookup_insert_eq.
  rewrite !(func_extend_eq _ self (heap p) xs Hself).
  rewrite (func_append_eq item self (heap p) xs Hself).
  cbn [state]. split_and!; [|done|done].
  by rewrite list_insert_insert_eq, <- app_assoc.
Qed.

Lemma extend_extend_is_extend_of_concatenation_witness :
  heap three_numbers !! 0%nat = Some [VInt 3; VInt 1; VInt 2]
  ∧ heap (state (array.extend example.simple_builtins ([VInt 4] ++ [VInt 5; VInt 6])
                   0%nat three_numbers))
    = <[0%nat := [VInt 3; VInt 1; VInt 2] ++ [VInt 4] ++ [VInt 5; VInt 6]]>
        (heap three_numbers).
Proof.
  assert (heap three_numbers !! 0%nat = Some [VInt 3; VInt 1; VInt 2]) as Hself
    by reflexivity.
  split; [exact Hself|].
  exact (proj1 (proj2 (extend_extend_is_extend_of_concatenation
                         example.simple_builtins [VInt 4] [VInt 5; VInt 6] VNone
                         0%nat three_numbers [VInt 3; VInt 1; VInt 2] Hself))).
Defined.

(** [append] followed by [pop()] leaves the appended item alone in the
    pipeline, whatever was there. *)
Theorem append_then_pop_leaves_the_item B item self p xs :
  heap p !! self = Some xs →
  result ((let! a := array.append B item self in array.pop B (-1) a) p) = inr self
  ∧ heap (state ((let! a := array.append B item self in array.pop B (-1) a) p))
    = <[self := [item]]> (heap p).
Proof.
  intros Hself.
  assert (self < length (heap p))%nat as Hlt by by eapply lookup_lt_Some.
  unfold array.append, array.pop.
  erewrite bind_ok;
    [|rewrite debug_run, (func_append_eq item self (heap p) xs Hself); reflexivity].
  rewrite debug_run. cbn [after result state heap debug_active].
  rewrite (func_pop_eq (-1) self (<[self := xs ++ [item]]> (heap p)) (xs ++ [item]))
    by by apply list_lookup_insert_eq.
  assert (∃ rest, array.pop_item (-1) (xs ++ [item]) = inr (item, rest)) as [rest ->].
  { unfold array.pop_item. rewrite as_ssize_t_minus_one.
    destruct (xs ++ [item]) as [|y l] eqn:Heq.
    - by destruct xs.
    - rewrite <- Heq. rewrite py_index_last by (rewrite length_app; simpl; lia).
      rewrite length_app. cbn [length].
      replace (length xs + 1 - 1)%nat with (length xs) by lia.
      rewrite list_lookup_middle by done. by eexists. }
  cbn [result state]. split; [done|]. by rewrite list_insert_insert_eq.
Qed.

Lemma append_then_pop_leaves_the_item_witness :
  heap three_numbers !! 0%nat = Some [VInt 3; VInt 1; VInt 2]
  ∧ heap (state ((let! a := array.append example.simple_builtins (VInt 7) 0%nat in
                  array.pop example.simple_builtins (-1) a) three_numbers))
    = <[0%nat := [VInt 7]]> (heap three_numbers).
Proof.
  assert (heap three_numbers !! 0%nat = Some [VInt 3; VInt 1; VInt 2]) as Hself
    by reflexivity.
  split; [exact Hself|].
  exact (proj2 (append_then_pop_leaves_the_item example.simple_builtins (VInt 7)
                  0%nat three_numbers [VInt 3; VInt 1; VInt 2] Hself)).
Defined.

(** The constructor given one list, and the constructor given the elements
    of that list as separate arguments, build the same pipeline whenever the
    elements are not a single list, tuple or set; the new pipeline does not
    disturb those that exist. *)
Theorem constructor_forms_agree xs p :
  (∀ a, xs = [a] → is_list_tuple_set a = false) →
  result ((let! a := array.new [VList xs] in array.build None a) p) = inr (VList xs)
  ∧ result ((let! a := array.new [VTuple xs] in array.build None a) p) = inr (VList xs)
  ∧ result ((let! a := array.new xs in array.build None a) p) = inr (VList xs)
  ∧ heap (state (array.new xs p)) = heap p ++ [xs].
Proof.
  intros Hsingle.
  assert (∀ args, result ((let! a := array.new args in array.build None a) p)
                  = inr (VList (array.init_items args))) as Hnew.
  { intros args. erewrite bind_ok; [|apply new_eq]. rewrite after_nil, build_eq.
    cbn [result heap]. by rewrite lookup_newest. }
  rewrite !Hnew, new_eq. cbn [state heap array.init_items is_list_tuple_set list_of].
  by rewrite (init_items_args xs Hsingle).
Qed.

Lemma constructor_forms_agree_witness :
  (∀ a, [VInt 1; VInt 2] = [a] → is_list_tuple_set a = false)
  ∧ result ((let! a := array.new [VList [VInt 1; VInt 2]] in array.build None a)
              example.no_pipelines) = inr (VList [VInt 1; VInt 2])
  ∧ result ((let! a := array.new [VInt 1; VInt 2] in array.build None a)
              example.no_pipelines) = inr (VList [VInt 1; VInt 2]).
Proof.
  assert (∀ a, [VInt 1; VInt 2] = [a] → is_list_tuple_set a = false) as Hsingle
    by (intros a Heq; discriminate Heq).
  split; [exact Hsingle|].
  destruct (constructor_forms_agree [VInt 1; VInt 2] example.no_pipelines Hsingle)
    as (Hlist & _ & Hargs & _).
  split; [exact Hlist | exact Hargs].
Defined.
